(** * morb/units.py: unit types of an RBM, embedded in Rocq

    The Python module builds Theano expressions: a unit method receives a
    [vmap] (a dict from unit objects to symbolic tensors) and returns a new
    symbolic tensor.  The embedding has the same two levels:

    - the call level: the methods of [units.py] as functions that build
      values of [expr], in a monad that carries Python exceptions;
    - the value level: [eval], giving every expression the tensor of real
      numbers it denotes.  Floating point is idealised as [R]: rounding is
      left out, but the saturation of Theano's sigmoid and softplus is kept,
      and the logarithm is only given a meaning on positive entries. *)

From Stdlib Require Import Reals Lra Lia.
From stdpp Require Import base gmap strings list.

Set Warnings "-register-all".

(** ** Tensors of reals *)

Module Tensor.

Inductive nest : Type :=
| Leaf (x : R)
| Arr (l : list nest).

(** An array is its shape and its nested body, as a NumPy array. *)
Record ndarray : Type := NDArray { shape : list nat; body : nest }.

Fixpoint conforms (sh : list nat) (t : nest) : bool :=
  match sh, t with
  | [], Leaf _ => true
  | n :: sh', Arr l => Nat.eqb (length l) n && forallb (conforms sh') l
  | _, _ => false
  end.

Definition well_formed (a : ndarray) : Prop := conforms (shape a) (body a) = true.

Definition rank (a : ndarray) : nat := length (shape a).

Definition scalar (x : R) : ndarray := NDArray [] (Leaf x).

Fixpoint nmap (f : R -> R) (t : nest) : nest :=
  match t with
  | Leaf x => Leaf (f x)
  | Arr l => Arr (map (nmap f) l)
  end.

Definition tmap (f : R -> R) (a : ndarray) : ndarray :=
  NDArray (shape a) (nmap f (body a)).

(** Pointwise combination of two bodies of the same shape. *)
Fixpoint nzip (f : R -> R -> R) (t1 t2 : nest) : nest :=
  match t1, t2 with
  | Leaf x, Leaf y => Leaf (f x y)
  | Arr l1, Arr l2 =>
      Arr ((fix go (l1 l2 : list nest) : list nest :=
              match l1, l2 with
              | c1 :: l1', c2 :: l2' => nzip f c1 c2 :: go l1' l2'
              | _, _ => []
              end) l1 l2)
  | _, _ => t1
  end.

Fixpoint zeros (sh : list nat) : nest :=
  match sh with
  | [] => Leaf 0%R
  | n :: sh' => Arr (replicate n (zeros sh'))
  end.

(** Sum of all the entries. *)
Fixpoint total (t : nest) : R :=
  match t with
  | Leaf x => x
  | Arr l => foldr (fun c acc => (total c + acc)%R) 0%R l
  end.

(** All the entries, in row-major order. *)
Fixpoint entries (t : nest) : list R :=
  match t with
  | Leaf x => [x]
  | Arr l => flat_map entries l
  end.

(** The shape left when the axes listed in [axes] are reduced; [d] is the
    number of the first axis of [sh]. *)
Fixpoint kept_shape (axes : list nat) (d : nat) (sh : list nat) : list nat :=
  match sh with
  | [] => []
  | n :: sh' =>
      if bool_decide (d ∈ axes) then kept_shape axes (S d) sh'
      else n :: kept_shape axes (S d) sh'
  end.

(** Summation over the axes listed in [axes]. *)
Fixpoint reduce_sum (axes : list nat) (d : nat) (sh : list nat) (t : nest) : nest :=
  match t, sh with
  | Arr l, _ :: sh' =>
      let l' := map (reduce_sum axes (S d) sh') l in
      if bool_decide (d ∈ axes)
      then foldr (nzip Rplus) (zeros (kept_shape axes (S d) sh')) l'
      else Arr l'
  | _, _ => t
  end.

Definition sum_axes (axes : list nat) (a : ndarray) : ndarray :=
  NDArray (kept_shape axes 0 (shape a)) (reduce_sum axes 0 (shape a) (body a)).

(** Rows along the last axis of a rank-3 array. *)
Definition unleaf (t : nest) : R :=
  match t with Leaf x => x | Arr _ => 0%R end.

Definition row_of (t : nest) : list R :=
  match t with Leaf _ => [] | Arr l => map unleaf l end.

Definition of_row (r : list R) : nest := Arr (map Leaf r).

(** [rows3 t] lists the (minibatch, unit) rows of a rank-3 body. *)
Definition rows3 (t : nest) : list (list R) :=
  match t with
  | Leaf _ => []
  | Arr l0 =>
      flat_map (fun t1 => match t1 with
                          | Leaf _ => []
                          | Arr l1 => map row_of l1
                          end) l0
  end.

(** Apply [f i j] to the row at minibatch [i], unit [j]. *)
Definition imap_rows3 (f : nat -> nat -> list R -> list R) (t : nest) : nest :=
  match t with
  | Leaf x => Leaf x
  | Arr l0 =>
      Arr (imap (fun i t1 =>
                   match t1 with
                   | Leaf x => Leaf x
                   | Arr l1 => Arr (imap (fun j t2 => of_row (f i j (row_of t2))) l1)
                   end) l0)
  end.

(** Induction on a body, with the hypothesis for every element of an array. *)
Section NestInduction.
Variable P : nest -> Prop.
Hypothesis P_leaf : forall x, P (Leaf x).
Hypothesis P_arr : forall l, Forall P l -> P (Arr l).

Fixpoint nest_ind_forall (t : nest) : P t :=
  match t with
  | Leaf x => P_leaf x
  | Arr l =>
      P_arr l ((fix go (l : list nest) : Forall P l :=
                  match l with
                  | [] => @List.Forall_nil _ P
                  | c :: l' => @List.Forall_cons _ P c l' (nest_ind_forall c) (go l')
                  end) l)
  end.
End NestInduction.

End Tensor.

(** ** Theano: symbolic tensor expressions *)

Module Theano.
Import Tensor.

(** Elementwise operations of one and of two arguments. *)
Inductive elem1 : Type :=
| Neg | Log | Sigmoid | Softplus | Pow (n : nat) | TruncatedExponentialMean.

Inductive elem2 : Type :=
| Add | Sub | Mul | TrueDiv.

(** The random variates of [morb.samplers]. *)
Inductive sampler : Type :=
| Bernoulli | Gaussian | Multinomial | Exponential | TruncatedExponential | GammaApprox.

Inductive expr : Type :=
| EVar (x : string) (nd : nat)          (* an input variable of static rank nd *)
| EConst (a : ndarray)                  (* a Python number or a constant array *)
| EElem1 (f : elem1) (e : expr)
| EElem2 (f : elem2) (e1 e2 : expr)
| ESum (axes : list nat) (e : expr)     (* T.sum(e, axis=axes) *)
| ESoftmax (e : expr)
| ESoftmaxWithZero (e : expr)
| EDropLast2 (e : expr)                 (* e[:, :, :-1] *)
| ESample1 (d : sampler) (e : expr)
| ESample2 (d : sampler) (e1 e2 : expr).

Definition const (r : R) : expr := EConst (scalar r).

(** The static number of dimensions of a symbolic tensor ([x.ndim]). *)
Fixpoint ndim (e : expr) : nat :=
  match e with
  | EVar _ nd => nd
  | EConst a => rank a
  | EElem1 _ e => ndim e
  | EElem2 _ e1 e2 => Nat.max (ndim e1) (ndim e2)
  | ESum axes e => ndim e - length (filter (fun k => k <? ndim e) (remove_dups axes))
  | ESoftmax e => ndim e
  | ESoftmaxWithZero e => ndim e
  | EDropLast2 e => ndim e
  | ESample1 _ e => ndim e
  | ESample2 _ e1 e2 => Nat.max (ndim e1) (ndim e2)
  end.

Declare Scope expr_scope.
Delimit Scope expr_scope with E.
Bind Scope expr_scope with expr.
Notation "a + b" := (EElem2 Add a b) : expr_scope.
Notation "a - b" := (EElem2 Sub a b) : expr_scope.
Notation "a * b" := (EElem2 Mul a b) : expr_scope.
Notation "a / b" := (EElem2 TrueDiv a b) : expr_scope.
Notation "- a" := (EElem1 Neg a) : expr_scope.
Notation "a ^ n" := (EElem1 (Pow n) a) : expr_scope.

(** Python's [range(a, b)]. *)
Definition range (a b : nat) : list nat := seq a (b - a).

(** The functions of [theano.tensor] that [units.py] calls. *)
Module T.
Definition log (x : expr) : expr := EElem1 Log x.
Definition sum (x : expr) (axis : list nat) : expr := ESum axis x.
Definition nnet_sigmoid (x : expr) : expr := EElem1 Sigmoid x.
Definition nnet_softplus (x : expr) : expr := EElem1 Softplus x.
End T.

End Theano.

(** ** The Python run time: exceptions, objects, attributes *)

Module Python.
Import Tensor Theano.

Abbreviation oid := positive (only parsing).
Abbreviation rbm_ref := positive (only parsing).

Inductive units_class : Type :=
| BinaryUnits
| GaussianPrecisionProxyUnits | GaussianUnits
| LearntPrecisionGaussianProxyUnits | LearntPrecisionGaussianUnits
| SoftmaxUnits | SoftmaxWithZeroUnits
| TruncatedExponentialUnits | ExponentialUnits
| NRELUnits
| GammaLogProxyUnits | GammaUnits
| SymmetricBinaryProxyUnits | SymmetricBinaryUnits.

Inductive method : Type :=
| SampleFromActivation | MeanFieldFromActivation | FreeEnergyTermFromActivation.

Inductive exn : Type :=
| KeyError (k : oid)
| NameError (x : string)
| AttributeError (o : oid) (attr : string)
| TypeError
| IndexError
| ValueError
| MissingInputError (x : string)
| CapabilityError (c : units_class) (m : method).

Inductive result (A : Type) : Type :=
| Ok (a : A)
| Raise (e : exn).
Arguments Ok {A} a.
Arguments Raise {A} e.

Definition result_bind {A B} (r : result A) (k : A -> result B) : result B :=
  match r with
  | Ok a => k a
  | Raise e => Raise e
  end.

Notation "'let?' x := r 'in' k" := (result_bind r (fun x => k))
  (at level 10, x name, r at level 100, k at level 200).

(** A call returns its outcome together with the list of [vmap] keys it
    subscripted, in order.  The list is ghost state: the Python code does not
    compute it, it records which entries a call has read. *)
Definition M (A : Type) : Type := (list oid * result A)%type.

Definition reads {A} (m : M A) : list oid := fst m.
Definition outcome {A} (m : M A) : result A := snd m.

Definition ret {A} (a : A) : M A := ([], Ok a).
Definition raise {A} (e : exn) : M A := ([], Raise e).
Definition bind {A B} (m : M A) (k : A -> M B) : M B :=
  match snd m with
  | Ok a => (fst m ++ fst (k a), snd (k a))
  | Raise e => (fst m, Raise e)
  end.
Definition lift {A} (r : result A) : M A := ([], r).

Notation "x <- m ;; k" := (bind m (fun x => k))
  (at level 100, m at next level, right associativity).

(** Values an attribute can hold. *)
Inductive pyval : Type :=
| VNone
| VStr (s : string)
| VRef (o : oid)
| VList (l : list oid)
| VFunc (f : expr -> expr)
| VModel (m : rbm_ref).

Record object : Type := Object { cls : units_class; attrs : gmap string pyval }.

Abbreviation heap := (gmap positive object) (only parsing).
Abbreviation vmap_t := (gmap positive expr) (only parsing).

Definition new_object (c : units_class) (h : heap) : oid * heap :=
  let i := fresh (dom h) in (i, <[i := Object c ∅]> h).

Definition setattr (o : oid) (a : string) (v : pyval) (h : heap) : heap :=
  alter (fun ob => Object (cls ob) (<[a := v]> (attrs ob))) o h.

Definition getattr (h : heap) (o : oid) (a : string) : M pyval :=
  match h !! o with
  | Some ob =>
      match attrs ob !! a with
      | Some v => ret v
      | None => raise (AttributeError o a)
      end
  | None => raise (AttributeError o a)
  end.

(** A unit object used as a dict key.  In this module the attributes that
    are used so are only ever bound to unit objects. *)
Definition as_unit (v : pyval) : M oid :=
  match v with
  | VRef o => ret o
  | _ => raise TypeError
  end.

(** [vmap[k]]: a missing key raises [KeyError]. *)
Definition vmap_get (vmap : vmap_t) (k : oid) : M expr :=
  ([k], match vmap !! k with
        | Some e => Ok e
        | None => Raise (KeyError k)
        end).

Definition of_name (name : option string) : pyval :=
  match name with
  | Some s => VStr s
  | None => VNone
  end.

(** The names bound at module level in [units.py]: its imports and its
    classes. *)
Definition module_globals : list string :=
  ["Units"; "ProxyUnits"; "samplers"; "activation_functions"; "T";
   "BinaryUnits"; "GaussianPrecisionProxyUnits"; "GaussianUnits";
   "LearntPrecisionGaussianProxyUnits"; "LearntPrecisionGaussianUnits";
   "SoftmaxUnits"; "SoftmaxWithZeroUnits"; "TruncatedExponentialUnits";
   "ExponentialUnits"; "NRELUnits"; "GammaLogProxyUnits"; "GammaUnits";
   "SymmetricBinaryProxyUnits"; "SymmetricBinaryUnits"]%string.

(** Reading a name where a tensor is expected: first the local variables
    ([Some e] when the local holds the tensor [e], [None] when it holds
    something else), then the module's globals, none of which is a tensor; a
    name bound nowhere raises [NameError] (no Python builtin is called [a]). *)
Definition load_name (locals : list (string * option expr)) (x : string) : M expr :=
  match list_find (fun p => bool_decide (fst p = x)) locals with
  | Some (_, (_, Some e)) => ret e
  | Some (_, (_, None)) => raise TypeError
  | None =>
      if bool_decide (x ∈ module_globals) then raise TypeError
      else raise (NameError x)
  end.

End Python.

(** ** The collaborators of [units.py] *)

(** Modelled from the spec: [morb/activation_functions.py] is not among the
    sources.  Its functions are pure; each builds one node. *)
Module activation_functions.
Import Theano.
Definition sigmoid (x : expr) : expr := EElem1 Sigmoid x.
Definition softmax (x : expr) : expr := ESoftmax x.
Definition softmax_with_zero (x : expr) : expr := ESoftmaxWithZero x.
End activation_functions.

(** Modelled from the spec: [morb/samplers.py] is not among the sources.
    Its functions are pure, and each returns a tensor shaped like its
    parameters; [gaussian] has variance 1 when none is given. *)
Module samplers.
Import Theano.
Definition bernoulli (p : expr) : expr := ESample1 Bernoulli p.
Definition gaussian (mean var : expr) : expr := ESample2 Gaussian mean var.
Definition gaussian_default_var : expr := const 1.
Definition multinomial (p : expr) : expr := ESample1 Multinomial p.
Definition exponential (rate : expr) : expr := ESample1 Exponential rate.
Definition truncated_exponential (rate : expr) : expr := ESample1 TruncatedExponential rate.
Definition truncated_exponential_mean (rate : expr) : expr := EElem1 TruncatedExponentialMean rate.
Definition gamma_approx (k theta : expr) : expr := ESample2 GammaApprox k theta.
End samplers.

(** Modelled from the spec: [morb/base.py] is not among the sources.  A unit
    is an identity object that belongs to a model, has an optional name and
    owns a list of proxy units; a proxy also holds the unit it is a view of
    and its function. *)
Module base.
Import Theano Python.

Definition Units__init__ (self : oid) (rbm : rbm_ref) (name : option string)
      (h : heap) : heap :=
    let h := setattr self "rbm" (VModel rbm) h in
    let h := setattr self "name" (of_name name) h in
    setattr self "proxy_units" (VList []) h.

Definition ProxyUnits__init__ (self : oid) (rbm : rbm_ref) (units : oid)
      (func : expr -> expr) (name : option string) (h : heap) : heap :=
    let h := Units__init__ self rbm name h in
    let h := setattr self "units" (VRef units) h in
    setattr self "func" (VFunc func) h.
End base.

(** ** [morb/units.py] *)

Module units.
Import Tensor Theano Python.

(** Calling a class: allocate the object, then run [__init__] on it. *)
Definition construct (c : units_class) (init : oid -> heap -> heap) (h : heap)
    : oid * heap :=
  let '(o, h) := new_object c h in (o, init o h).

(** [name + suffix if name is not None else None] *)
Definition proxy_name_of (name : option string) (suffix : string) : option string :=
  match name with
  | Some n => Some (n +:+ suffix)
  | None => None
  end.

(** *** Constructors *)

Definition GaussianPrecisionProxyUnits__init__ (self : oid) (rbm : rbm_ref)
    (units : oid) (name : option string) (h : heap) : heap :=
  let func := fun x : expr => (x ^ 2 / const 2)%E in
  base.ProxyUnits__init__ self rbm units func name h.

Definition GaussianUnits__init__ (self : oid) (rbm : rbm_ref)
    (name : option string) (h : heap) : heap :=
  let h := base.Units__init__ self rbm name h in
  let proxy_name := proxy_name_of name "_precision" in
  let '(p, h) := construct GaussianPrecisionProxyUnits
                   (fun p => GaussianPrecisionProxyUnits__init__ p rbm self proxy_name) h in
  let h := setattr self "precision_units" (VRef p) h in
  setattr self "proxy_units" (VList [p]) h.

Definition LearntPrecisionGaussianProxyUnits__init__ (self : oid) (rbm : rbm_ref)
    (units : oid) (name : option string) (h : heap) : heap :=
  let func := fun x : expr => (x ^ 2)%E in
  base.ProxyUnits__init__ self rbm units func name h.

Definition LearntPrecisionGaussianUnits__init__ (self : oid) (rbm : rbm_ref)
    (name : option string) (h : heap) : heap :=
  let h := base.Units__init__ self rbm name h in
  let proxy_name := proxy_name_of name "_precision" in
  let '(p, h) := construct LearntPrecisionGaussianProxyUnits
                   (fun p => LearntPrecisionGaussianProxyUnits__init__ p rbm self proxy_name) h in
  let h := setattr self "precision_units" (VRef p) h in
  setattr self "proxy_units" (VList [p]) h.

Definition GammaLogProxyUnits__init__ (self : oid) (rbm : rbm_ref)
    (units : oid) (name : option string) (h : heap) : heap :=
  let func := fun x : expr => T.log x in
  base.ProxyUnits__init__ self rbm units func name h.

Definition GammaUnits__init__ (self : oid) (rbm : rbm_ref)
    (name : option string) (h : heap) : heap :=
  let h := base.Units__init__ self rbm name h in
  let proxy_name := proxy_name_of name "_log" in
  let '(p, h) := construct GammaLogProxyUnits
                   (fun p => GammaLogProxyUnits__init__ p rbm self proxy_name) h in
  let h := setattr self "log_units" (VRef p) h in
  setattr self "proxy_units" (VList [p]) h.

Definition SymmetricBinaryProxyUnits__init__ (self : oid) (rbm : rbm_ref)
    (units : oid) (name : option string) (h : heap) : heap :=
  let func := fun x : expr => (const 1 - x)%E in
  base.ProxyUnits__init__ self rbm units func name h.

Definition SymmetricBinaryUnits__init__ (self : oid) (rbm : rbm_ref)
    (name : option string) (h : heap) : heap :=
  let h := base.Units__init__ self rbm name h in
  let proxy_name := proxy_name_of name "_flipped" in
  let '(p, h) := construct SymmetricBinaryProxyUnits
                   (fun p => SymmetricBinaryProxyUnits__init__ p rbm self proxy_name) h in
  let h := setattr self "flipped_units" (VRef p) h in
  setattr self "proxy_units" (VList [p]) h.

(** [GaussianUnits(rbm, name)] and its siblings. *)
Definition GaussianUnits_new (rbm : rbm_ref) (name : option string) (h : heap)
    : oid * heap :=
  construct GaussianUnits (fun self => GaussianUnits__init__ self rbm name) h.

Definition LearntPrecisionGaussianUnits_new (rbm : rbm_ref) (name : option string)
    (h : heap) : oid * heap :=
  construct LearntPrecisionGaussianUnits
    (fun self => LearntPrecisionGaussianUnits__init__ self rbm name) h.

Definition GammaUnits_new (rbm : rbm_ref) (name : option string) (h : heap)
    : oid * heap :=
  construct GammaUnits (fun self => GammaUnits__init__ self rbm name) h.

Definition SymmetricBinaryUnits_new (rbm : rbm_ref) (name : option string)
    (h : heap) : oid * heap :=
  construct SymmetricBinaryUnits (fun self => SymmetricBinaryUnits__init__ self rbm name) h.

(** The classes that only inherit [Units.__init__]. *)
Definition plain_new (c : units_class) (rbm : rbm_ref) (name : option string)
    (h : heap) : oid * heap :=
  construct c (fun self => base.Units__init__ self rbm name) h.

(** [s0[:, :, :-1]]: Theano refuses three indices on a tensor of fewer than
    three dimensions when the expression is built. *)
Definition subscript_drop_last_state (s0 : expr) : M expr :=
  if 3 <=? ndim s0 then ret (EDropLast2 s0) else raise IndexError.

(** *** Methods *)

Section Methods.

(** [theano.tensor.max] applied to a number and a tensor, as [NRELUnits]
    calls it; what Theano makes of that call is left open. *)
Variable T_max : expr -> expr -> result expr.

(** [Units.activation] of [morb/base.py]: the owning model's computation of
    the activation of a unit. *)
Variable activation : heap -> oid -> vmap_t -> M expr.

Definition BinaryUnits_sample_from_activation (self : oid) (vmap : vmap_t) : M expr :=
  x <- vmap_get vmap self ;;
  let p := activation_functions.sigmoid x in
  ret (samplers.bernoulli p).

Definition BinaryUnits_mean_field_from_activation (self : oid) (vmap : vmap_t) : M expr :=
  x <- vmap_get vmap self ;;
  ret (activation_functions.sigmoid x).

Definition BinaryUnits_free_energy_term_from_activation (self : oid) (vmap : vmap_t)
    : M expr :=
  x <- vmap_get vmap self ;;
  let s := (- T.nnet_softplus x)%E in
  ret (T.sum s (range 1 (ndim s))).

Definition GaussianUnits_sample_from_activation (self : oid) (vmap : vmap_t) : M expr :=
  x <- vmap_get vmap self ;;
  ret (samplers.gaussian x samplers.gaussian_default_var).

Definition GaussianUnits_mean_field_from_activation (self : oid) (vmap : vmap_t) : M expr :=
  x <- vmap_get vmap self ;;
  ret x.

Definition LearntPrecisionGaussianUnits_sample_from_activation (h : heap) (self : oid)
    (vmap : vmap_t) : M expr :=
  a1 <- vmap_get vmap self ;;
  pu <- getattr h self "precision_units" ;;
  k <- as_unit pu ;;
  a2 <- vmap_get vmap k ;;
  ret (samplers.gaussian (a1 / (const (-2) * a2)) (const 1 / (const (-2) * a2)))%E.

Definition LearntPrecisionGaussianUnits_sample (h : heap) (self : oid) (vmap : vmap_t)
    : M expr :=
  a1 <- activation h self vmap ;;
  pu <- getattr h self "precision_units" ;;
  p <- as_unit pu ;;
  a2 <- activation h p vmap ;;
  pu' <- getattr h self "precision_units" ;;
  k <- as_unit pu' ;;
  LearntPrecisionGaussianUnits_sample_from_activation h self (<[k := a2]> {[self := a1]}).

Definition SoftmaxUnits_sample_from_activation (self : oid) (vmap : vmap_t) : M expr :=
  x <- vmap_get vmap self ;;
  let p := activation_functions.softmax x in
  ret (samplers.multinomial p).

Definition SoftmaxWithZeroUnits_sample_from_activation (self : oid) (vmap : vmap_t)
    : M expr :=
  x <- vmap_get vmap self ;;
  let p0 := activation_functions.softmax_with_zero x in
  let s0 := samplers.multinomial p0 in
  s <- subscript_drop_last_state s0 ;;
  ret s.

Definition TruncatedExponentialUnits_sample_from_activation (self : oid) (vmap : vmap_t)
    : M expr :=
  x <- vmap_get vmap self ;;
  ret (samplers.truncated_exponential (- x)%E).

Definition TruncatedExponentialUnits_mean_field_from_activation (self : oid)
    (vmap : vmap_t) : M expr :=
  x <- vmap_get vmap self ;;
  ret (samplers.truncated_exponential_mean (- x)%E).

Definition ExponentialUnits_sample_from_activation (self : oid) (vmap : vmap_t) : M expr :=
  x <- vmap_get vmap self ;;
  ret (samplers.exponential (- x)%E).

Definition ExponentialUnits_mean_field_from_activation (self : oid) (vmap : vmap_t)
    : M expr :=
  x <- vmap_get vmap self ;;
  ret (const 1 / (- x))%E.

(** The operands of [+] are evaluated left to right: the name [a] is read
    before [vmap[self]] is. *)
Definition NRELUnits_sample_from_activation (self : oid) (vmap : vmap_t) : M expr :=
  a <- load_name [("self", None); ("vmap", None)]%string "a" ;;
  x <- vmap_get vmap self ;;
  let s := (a + samplers.gaussian (const 0) (T.nnet_sigmoid x))%E in
  lift (T_max (const 0) s).

Definition NRELUnits_mean_field_from_activation (self : oid) (vmap : vmap_t) : M expr :=
  x <- vmap_get vmap self ;;
  lift (T_max (const 0) x).

Definition GammaUnits_sample_from_activation (h : heap) (self : oid) (vmap : vmap_t)
    : M expr :=
  a1 <- vmap_get vmap self ;;
  lu <- getattr h self "log_units" ;;
  k <- as_unit lu ;;
  a2 <- vmap_get vmap k ;;
  ret (samplers.gamma_approx (a2 + const 1) (const (-1) / a1))%E.

Definition GammaUnits_sample (h : heap) (self : oid) (vmap : vmap_t) : M expr :=
  a1 <- activation h self vmap ;;
  lu <- getattr h self "log_units" ;;
  p <- as_unit lu ;;
  a2 <- activation h p vmap ;;
  lu' <- getattr h self "log_units" ;;
  k <- as_unit lu' ;;
  GammaUnits_sample_from_activation h self (<[k := a2]> {[self := a1]}).

Definition SymmetricBinaryUnits_sample_from_activation (h : heap) (self : oid)
    (vmap : vmap_t) : M expr :=
  x <- vmap_get vmap self ;;
  fu <- getattr h self "flipped_units" ;;
  k <- as_unit fu ;;
  y <- vmap_get vmap k ;;
  let p := activation_functions.sigmoid (x - y)%E in
  ret (samplers.bernoulli p).

Definition SymmetricBinaryUnits_mean_field_from_activation (h : heap) (self : oid)
    (vmap : vmap_t) : M expr :=
  x <- vmap_get vmap self ;;
  fu <- getattr h self "flipped_units" ;;
  k <- as_unit fu ;;
  y <- vmap_get vmap k ;;
  ret (activation_functions.sigmoid (x - y)%E).

Definition SymmetricBinaryUnits_free_energy_term_from_activation (h : heap) (self : oid)
    (vmap : vmap_t) : M expr :=
  x <- vmap_get vmap self ;;
  fu <- getattr h self "flipped_units" ;;
  k <- as_unit fu ;;
  y <- vmap_get vmap k ;;
  let s := (- T.nnet_softplus (x - y))%E in
  ret (T.sum s (range 1 (ndim s))).

(** Method lookup by the class of [self].  Modelled from the spec: a class
    that does not define a method does not have that capability, and calling
    it is a capability error ([morb/base.py] is not among the sources). *)
Definition call_method (h : heap) (self : oid) (m : method) (vmap : vmap_t) : M expr :=
  match h !! self with
  | None => raise TypeError
  | Some ob =>
      match cls ob, m with
      | BinaryUnits, SampleFromActivation => BinaryUnits_sample_from_activation self vmap
      | BinaryUnits, MeanFieldFromActivation => BinaryUnits_mean_field_from_activation self vmap
      | BinaryUnits, FreeEnergyTermFromActivation =>
          BinaryUnits_free_energy_term_from_activation self vmap
      | GaussianUnits, SampleFromActivation => GaussianUnits_sample_from_activation self vmap
      | GaussianUnits, MeanFieldFromActivation => GaussianUnits_mean_field_from_activation self vmap
      | LearntPrecisionGaussianUnits, SampleFromActivation =>
          LearntPrecisionGaussianUnits_sample_from_activation h self vmap
      | SoftmaxUnits, SampleFromActivation => SoftmaxUnits_sample_from_activation self vmap
      | SoftmaxWithZeroUnits, SampleFromActivation =>
          SoftmaxWithZeroUnits_sample_from_activation self vmap
      | TruncatedExponentialUnits, SampleFromActivation =>
          TruncatedExponentialUnits_sample_from_activation self vmap
      | TruncatedExponentialUnits, MeanFieldFromActivation =>
          TruncatedExponentialUnits_mean_field_from_activation self vmap
      | ExponentialUnits, SampleFromActivation => ExponentialUnits_sample_from_activation self vmap
      | ExponentialUnits, MeanFieldFromActivation =>
          ExponentialUnits_mean_field_from_activation self vmap
      | NRELUnits, SampleFromActivation => NRELUnits_sample_from_activation self vmap
      | NRELUnits, MeanFieldFromActivation => NRELUnits_mean_field_from_activation self vmap
      | GammaUnits, SampleFromActivation => GammaUnits_sample_from_activation h self vmap
      | SymmetricBinaryUnits, SampleFromActivation =>
          SymmetricBinaryUnits_sample_from_activation h self vmap
      | SymmetricBinaryUnits, MeanFieldFromActivation =>
          SymmetricBinaryUnits_mean_field_from_activation h self vmap
      | SymmetricBinaryUnits, FreeEnergyTermFromActivation =>
          SymmetricBinaryUnits_free_energy_term_from_activation h self vmap
      | c, _ => raise (CapabilityError c m)
      end
  end.

End Methods.

End units.

(** ** The value of an expression

    What the function compiled from an expression computes, over the reals.
    Two arrays combine elementwise when one is a number or when their shapes
    are equal; the operations on states apply to rank-3 arrays (minibatch,
    unit, state); everything else raises [ValueError].  The randomness is one
    fixed realisation: [uniform] gives the uniform number behind each
    multinomial draw and [draw] the outcome of every other sampler. *)

Module Eval.
Import Tensor Theano Python.

(** Theano's scalar sigmoid and softplus saturate: the sigmoid is exactly 0
    below -30 and exactly 1 above 30, the softplus is exactly 0 below -30 and
    its argument above 30; in between they are the closed formulas. *)
Definition sigmoid (x : R) : R :=
  if Rlt_dec x (-30) then 0%R
  else if Rlt_dec 30 x then 1%R
  else (1 / (1 + exp (- x)))%R.

Definition softplus (x : R) : R :=
  if Rlt_dec x (-30) then 0%R
  else if Rlt_dec 30 x then x
  else ln (1 + exp x).

Definition sum_list (l : list R) : R := foldr Rplus 0%R l.

(** Modelled from the spec: the softmax over the states of one
    (minibatch, unit) row, and the variant with one more state whose
    activation is fixed to zero ([morb/activation_functions.py] is not among
    the sources). *)
Definition softmax_row (xs : list R) : list R :=
  let z := sum_list (map exp xs) in map (fun x => (exp x / z)%R) xs.

Definition softmax_with_zero_row (xs : list R) : list R :=
  softmax_row (xs ++ [0%R]).

(** The row with a one at position [i] and zeros elsewhere. *)
Definition one_hot (n i : nat) : list R :=
  map (fun j => if Nat.eqb j i then 1%R else 0%R) (seq 0 n).

(** The state that a uniform draw [u] selects under the probabilities [p]:
    the first one whose cumulated probability exceeds [u], the last one when
    none does. *)
Fixpoint pick (p : list R) (u : R) : nat :=
  match p with
  | [] => 0
  | x :: p' =>
      if Rlt_dec u x then 0
      else match p' with
           | [] => 0
           | _ => S (pick p' (u - x)%R)
           end
  end.

(** Modelled from the spec: one multinomial draw per (minibatch, unit) row,
    one-hot over the states ([morb/samplers.py] is not among the sources). *)
Definition multinomial_row (u : R) (p : list R) : list R :=
  one_hot (length p) (pick p u).

(** Elementwise combination; a number combines with an array of any shape. *)
Definition elemwise2 (f : R -> R -> R) (a b : ndarray) : result ndarray :=
  match shape a, shape b with
  | [], _ => Ok (tmap (f (unleaf (body a))) b)
  | _, [] => Ok (tmap (fun x => f x (unleaf (body b))) a)
  | _, _ =>
      if bool_decide (shape a = shape b)
      then Ok (NDArray (shape a) (nzip f (body a) (body b)))
      else Raise ValueError
  end.

(** An operation on the rows of a rank-3 array; [last] gives the new number
    of states. *)
Definition on_rows3 (f : nat -> nat -> list R -> list R) (last : nat -> nat)
    (a : ndarray) : result ndarray :=
  match shape a with
  | [m; n; k] => Ok (NDArray [m; n; last k] (imap_rows3 f (body a)))
  | _ => Raise ValueError
  end.

Section Evaluation.

(** The inputs of the compiled function. *)
Variable inputs : string -> option ndarray.
(** One realisation of the randomness: the uniform number behind the
    multinomial draw of row (i, j), and the outcome of every other sampler
    for given parameters. *)
Variable uniform : nat -> nat -> R.
Variable draw : sampler -> list ndarray -> ndarray.
(** The mean of the exponential distribution truncated to [0, 1], as a
    function of the rate. *)
Variable truncated_exponential_mean : R -> R.

(** [Log] is the logarithm on positive entries; where Theano gives [-inf] or
    [nan] (an entry that is not positive) the reals have no counterpart, and
    no statement below uses the value there. *)
Definition elem1_fn (f : elem1) : R -> R :=
  match f with
  | Neg => Ropp
  | Log => ln
  | Sigmoid => sigmoid
  | Softplus => softplus
  | Pow n => fun x => (x ^ n)%R
  | TruncatedExponentialMean => truncated_exponential_mean
  end.

Definition elem2_fn (f : elem2) : R -> R -> R :=
  match f with
  | Add => Rplus
  | Sub => Rminus
  | Mul => Rmult
  | TrueDiv => Rdiv
  end.

Fixpoint eval (e : expr) : result ndarray :=
  match e with
  | EVar x nd =>
      match inputs x with
      | Some a => if bool_decide (rank a = nd) then Ok a else Raise TypeError
      | None => Raise (MissingInputError x)
      end
  | EConst a => Ok a
  | EElem1 f e1 =>
      let? a := eval e1 in Ok (tmap (elem1_fn f) a)
  | EElem2 f e1 e2 =>
      let? a := eval e1 in
      let? b := eval e2 in
      elemwise2 (elem2_fn f) a b
  | ESum axes e1 =>
      let? a := eval e1 in
      if forallb (fun k => k <? rank a) axes then Ok (sum_axes axes a)
      else Raise ValueError
  | ESoftmax e1 =>
      let? a := eval e1 in on_rows3 (fun _ _ => softmax_row) (fun k => k) a
  | ESoftmaxWithZero e1 =>
      let? a := eval e1 in on_rows3 (fun _ _ => softmax_with_zero_row) S a
  | EDropLast2 e1 =>
      let? a := eval e1 in on_rows3 (fun _ _ r => removelast r) Nat.pred a
  | ESample1 Multinomial e1 =>
      let? a := eval e1 in
      on_rows3 (fun i j => multinomial_row (uniform i j)) (fun k => k) a
  | ESample1 d e1 =>
      let? a := eval e1 in Ok (draw d [a])
  | ESample2 d e1 e2 =>
      let? a := eval e1 in
      let? b := eval e2 in
      Ok (draw d [a; b])
  end.

End Evaluation.

End Eval.

(** ** Vocabulary of the statements *)

Module Spec.
Import Tensor Theano Python Eval.

(** The slices of an array along axis 0, one per minibatch example. *)
Definition minibatch_slices (a : ndarray) : list nest :=
  match body a with
  | Leaf _ => []
  | Arr l => l
  end.

(** The rank-2 array of the given rows, all of the length of the first. *)
Definition matrix (rows : list (list R)) : ndarray :=
  NDArray [length rows; length (hd [] rows)] (Arr (map of_row rows)).

(** The rank-1 array of the given entries. *)
Definition vector (xs : list R) : ndarray :=
  NDArray [length xs] (Arr (map Leaf xs)).

(** Every entry of the array satisfies [P]. *)
Definition all_entries (P : R -> Prop) (a : ndarray) : Prop :=
  Forall P (entries (body a)).

Definition all_zero (r : list R) : Prop := Forall (fun x => x = 0%R) r.

(** One entry of the row is 1 and all the others are 0. *)
Definition exactly_one_one (r : list R) : Prop :=
  exists i, r !! i = Some 1%R /\ forall j, j <> i -> j < length r -> r !! j = Some 0%R.

(** The attribute [attr] of [self] is bound to the unit object [p]. *)
Definition attr_is_unit (h : heap) (self : oid) (attr : string) (p : oid) : Prop :=
  exists ob, h !! self = Some ob /\ attrs ob !! attr = Some (VRef p).

(** The class of the object at [o]. *)
Definition class_of (h : heap) (o : oid) : option units_class := cls <$> h !! o.

(** The attributes that [Units.__init__] leaves on a new object, and those
    that [ProxyUnits.__init__] leaves. *)
Definition unit_attrs (rbm : rbm_ref) (name : option string) : gmap string pyval :=
  <["proxy_units" := VList []]> (<["name" := of_name name]> (<["rbm" := VModel rbm]> ∅)).

Definition proxy_attrs (rbm : rbm_ref) (name : option string) (units : oid)
    (func : expr -> expr) : gmap string pyval :=
  <["func" := VFunc func]> (<["units" := VRef units]> (unit_attrs rbm name)).

(** The ghost list of reads agrees with the outcome: a read of a key that
    [vmap] lacks is the [KeyError] the call raises, and a call that returns
    has found every key it read. *)
Definition reads_consistent {A} (vmap : vmap_t) (m : M A) : Prop :=
  (forall k, k ∈ reads m -> vmap !! k = None -> outcome m = Raise (KeyError k)) /\
  (forall a, outcome m = Ok a -> forall k, k ∈ reads m -> is_Some (vmap !! k)).

(** The array that the expression returned by a call evaluates to. *)
Definition value_of (inputs : string -> option ndarray) (uniform : nat -> nat -> R)
    (draw : sampler -> list ndarray -> ndarray) (tem : R -> R) (m : M expr)
    : result ndarray :=
  let? e := outcome m in eval inputs uniform draw tem e.

(** A function without inputs and one fixed realisation of the randomness,
    for the examples. *)
Definition no_inputs : string -> option ndarray := fun _ => None.
Definition uniform_half : nat -> nat -> R := fun _ _ => (1 / 2)%R.
Definition draw_zero : sampler -> list ndarray -> ndarray := fun _ _ => scalar 0.
Definition tem_id : R -> R := fun x => x.
Definition T_max_unsupported : expr -> expr -> result expr := fun _ _ => Raise TypeError.
Definition activation_example : heap -> oid -> vmap_t -> M expr :=
  fun _ o _ => ret (if bool_decide (o = 1%positive) then const (-1) else const 0).

(** The methods that each class of [units.py] defines. *)
Definition defines (c : units_class) (m : method) : bool :=
  match c, m with
  | BinaryUnits, _ => true
  | GaussianUnits, (SampleFromActivation | MeanFieldFromActivation) => true
  | LearntPrecisionGaussianUnits, SampleFromActivation => true
  | SoftmaxUnits, SampleFromActivation => true
  | SoftmaxWithZeroUnits, SampleFromActivation => true
  | TruncatedExponentialUnits, (SampleFromActivation | MeanFieldFromActivation) => true
  | ExponentialUnits, (SampleFromActivation | MeanFieldFromActivation) => true
  | NRELUnits, (SampleFromActivation | MeanFieldFromActivation) => true
  | GammaUnits, SampleFromActivation => true
  | SymmetricBinaryUnits, _ => true
  | _, _ => false
  end.

(** The attribute under which a method finds the proxy whose entry of [vmap]
    it subscripts after the entry of the unit itself. *)
Definition proxy_read (c : units_class) (m : method) : option string :=
  match c, m with
  | LearntPrecisionGaussianUnits, SampleFromActivation => Some "precision_units"
  | GammaUnits, SampleFromActivation => Some "log_units"
  | SymmetricBinaryUnits, _ => Some "flipped_units"
  | _, _ => None
  end.

End Spec.

(** ** A model that cannot resolve an activation *)

Module Failing.
Import Theano Python.

(** [Units.activation] of a model in which the activation of no unit can be
    computed. *)
Definition activation_failing : heap -> oid -> vmap_t -> M expr :=
  fun _ _ _ => raise ValueError.

End Failing.

(** * Properties *)

Import Tensor Theano Python units Eval Spec.

Local Arguments elemwise2 : simpl never.
Local Arguments row_of : simpl never.
Local Arguments of_row : simpl never.

(** ** Bodies of arrays *)

Lemma conforms_arr n sh l :
  conforms (n :: sh) (Arr l) = true <->
  length l = n /\ Forall (fun c => conforms sh c = true) l.
Proof.
  simpl. rewrite andb_true_iff, Nat.eqb_eq, forallb_forall, Forall_forall.
  split; intros [? H]; split; auto; intros c Hc; apply H; by apply list_elem_of_In.
Qed.

Lemma conforms_leaf t : conforms [] t = true -> exists x, t = Leaf x.
Proof. destruct t; [eauto | discriminate]. Qed.

Lemma sum_list_app l1 l2 : sum_list (l1 ++ l2) = (sum_list l1 + sum_list l2)%R.
Proof. unfold sum_list. induction l1 as [| x l1 IH]; simpl; [lra | rewrite IH; lra]. Qed.

Lemma total_entries t : total t = sum_list (entries t).
Proof.
  induction t as [x | l IH] using nest_ind_forall; simpl.
  - unfold sum_list. simpl. lra.
  - induction IH as [| c l' Hc _ IHl]; simpl; [reflexivity |].
    rewrite sum_list_app, Hc, IHl. reflexivity.
Qed.

Lemma entries_nmap f t : entries (nmap f t) = map f (entries t).
Proof.
  induction t as [x | l IH] using nest_ind_forall; simpl; [reflexivity |].
  induction IH as [| c l' Hc _ IHl]; simpl; [reflexivity |].
  by rewrite map_app, Hc, IHl.
Qed.

Lemma nmap_nmap f g t : nmap f (nmap g t) = nmap (fun x => f (g x)) t.
Proof.
  induction t as [x | l IH] using nest_ind_forall; simpl; [reflexivity |].
  f_equal. rewrite map_map. induction IH as [| c l' Hc _ IHl]; simpl; [reflexivity |].
  by rewrite Hc, IHl.
Qed.

Lemma nmap_ext f g t : (forall x, f x = g x) -> nmap f t = nmap g t.
Proof.
  intros Hfg. induction t as [x | l IH] using nest_ind_forall; simpl.
  - by rewrite Hfg.
  - f_equal. induction IH as [| c l' Hc _ IHl]; simpl; [reflexivity |].
    by rewrite Hc, IHl.
Qed.

Lemma nzip_nmap_diag f g t : nzip f t (nmap g t) = nmap (fun x => f x (g x)) t.
Proof.
  induction t as [x | l IH] using nest_ind_forall; simpl; [reflexivity |].
  f_equal. induction IH as [| c l' Hc _ IHl]; simpl; [reflexivity |].
  by rewrite Hc, IHl.
Qed.

Lemma nzip_nmap_r f g t1 : forall t2,
  nzip f t1 (nmap g t2) = nzip (fun x y => f x (g y)) t1 t2.
Proof.
  induction t1 as [x | l1 IH] using nest_ind_forall; intros [y | l2]; simpl;
    try reflexivity.
  f_equal. revert l2. induction IH as [| c l' Hc _ IHl]; intros [| c2 l2]; simpl;
    try reflexivity.
  by rewrite Hc, IHl.
Qed.

Lemma conforms_nmap f t : forall sh, conforms sh (nmap f t) = conforms sh t.
Proof.
  induction t as [x | l IH] using nest_ind_forall; intros sh; destruct sh as [| n sh];
    simpl; try reflexivity.
  rewrite length_map. f_equal.
  induction IH as [| c l' Hc _ IHl]; simpl; [reflexivity |].
  by rewrite Hc, IHl.
Qed.

Lemma well_formed_tmap f a : well_formed a -> well_formed (tmap f a).
Proof. unfold well_formed, tmap. simpl. by rewrite conforms_nmap. Qed.

Lemma minibatch_slices_tmap f a :
  minibatch_slices (tmap f a) = map (nmap f) (minibatch_slices a).
Proof. unfold minibatch_slices, tmap. simpl. by destruct (body a). Qed.

(** ** Summation over axes *)

Lemma foldr_nzip_leaves (g : nest -> R) l :
  foldr (nzip Rplus) (Leaf 0%R) (map (fun c => Leaf (g c)) l)
  = Leaf (foldr (fun c acc => (g c + acc)%R) 0%R l).
Proof. induction l as [| c l IH]; simpl; [reflexivity | by rewrite IH]. Qed.

Lemma kept_shape_all axes sh : forall d,
  (forall k, d <= k < d + length sh -> k ∈ axes) ->
  kept_shape axes d sh = [].
Proof.
  induction sh as [| n sh IH]; intros d Hax; [reflexivity |]. simpl.
  rewrite bool_decide_eq_true_2 by (apply Hax; simpl; lia).
  apply IH. intros k Hk. apply Hax. simpl. lia.
Qed.

(** Reducing every axis of a conforming body leaves the sum of its entries. *)
Lemma reduce_sum_all axes t : forall sh d,
  conforms sh t = true ->
  (forall k, d <= k < d + length sh -> k ∈ axes) ->
  reduce_sum axes d sh t = Leaf (total t).
Proof.
  induction t as [x | l IH] using nest_ind_forall; intros sh d Hc Hax.
  - destruct sh; [reflexivity | discriminate].
  - destruct sh as [| n sh]; [discriminate |].
    apply conforms_arr in Hc as [Hlen Hall].
    assert (Hd : d ∈ axes) by (apply Hax; simpl; lia).
    simpl. rewrite (bool_decide_eq_true_2 _ Hd).
    rewrite kept_shape_all by (intros k Hk; apply Hax; simpl; lia).
    assert (Hmap : map (reduce_sum axes (S d) sh) l = map (fun c => Leaf (total c)) l).
    { clear Hlen. induction IH as [| c l' Hc' _ IHl]; [reflexivity |].
      apply Forall_cons in Hall as [Hc1 Hall]. simpl. f_equal; [| by apply IHl].
      apply Hc'; [done | intros k Hk'; apply Hax; simpl; lia]. }
    rewrite Hmap. apply foldr_nzip_leaves.
Qed.

Lemma range_1_spec n k : k ∈ range 1 n <-> 1 <= k < n.
Proof. unfold range. rewrite list_elem_of_In, in_seq. lia. Qed.

(** [T.sum(s, axis=range(1, s.ndim))] on a well-formed array of rank at least
    one: what is left is the vector of the sums of the minibatch slices. *)
Lemma sum_axes_all_but_first a :
  well_formed a -> 1 <= rank a ->
  sum_axes (range 1 (rank a)) a = vector (map total (minibatch_slices a)).
Proof.
  destruct a as [sh t]. unfold well_formed, rank, sum_axes, vector, minibatch_slices.
  simpl. intros Hwf Hr.
  destruct sh as [| n sh]; [simpl in Hr; lia |].
  destruct t as [x | l]; [discriminate |].
  apply conforms_arr in Hwf as [Hlen Hall]. simpl.
  rewrite bool_decide_eq_false_2 by (rewrite range_1_spec; lia).
  rewrite kept_shape_all by (intros k Hk; apply range_1_spec; lia).
  rewrite length_map, Hlen. f_equal. f_equal.
  rewrite map_map. clear Hlen Hr. induction Hall as [| c l' Hc _ IHl]; [reflexivity |].
  simpl. f_equal; [| exact IHl].
  apply reduce_sum_all; [done | intros k Hk; apply range_1_spec; lia].
Qed.

(** ** Calls *)

Lemma result_bind_ok {A B} (a : A) (K : A -> result B) : result_bind (Ok a) K = K a.
Proof. reflexivity. Qed.

Lemma bind_ret {A B} (a : A) (K : A -> M B) : bind (ret a) K = K a.
Proof. unfold bind, ret. simpl. by destruct (K a). Qed.

Lemma outcome_bind_ok {A B} (m : M A) (K : A -> M B) a :
  outcome m = Ok a -> outcome (bind m K) = outcome (K a).
Proof. unfold outcome, bind. by intros ->. Qed.

Lemma bind_vmap_get_some {B} (vmap : gmap positive expr) k e (K : expr -> M B) :
  vmap !! k = Some e ->
  bind (vmap_get vmap k) K = (k :: fst (K e), snd (K e)).
Proof. intros H. unfold bind, vmap_get. simpl. by rewrite H. Qed.

Lemma bind_vmap_get_none {B} (vmap : gmap positive expr) k (K : expr -> M B) :
  vmap !! k = None ->
  bind (vmap_get vmap k) K = ([k], Raise (KeyError k)).
Proof. intros H. unfold bind, vmap_get. simpl. by rewrite H. Qed.

Lemma bind_getattr_unit {B} h self attr p (K : pyval -> M B) :
  attr_is_unit h self attr p -> bind (getattr h self attr) K = K (VRef p).
Proof.
  intros (ob & Hob & Hat). unfold getattr. rewrite Hob, Hat. apply bind_ret.
Qed.

(** ** Elementwise operations *)

Lemma sigmoid_range x : (0 <= sigmoid x <= 1)%R.
Proof.
  unfold sigmoid.
  destruct (Rlt_dec x (-30)); [lra |]. destruct (Rlt_dec 30 x); [lra |].
  pose proof (exp_pos (- x)) as He.
  assert (Hd : (0 < 1 + exp (- x))%R) by lra.
  split; apply Rlt_le.
  - apply Rdiv_lt_0_compat; lra.
  - apply (Rmult_lt_reg_r (1 + exp (- x))); [exact Hd |].
    unfold Rdiv. rewrite Rmult_assoc, Rinv_l by lra. lra.
Qed.

Lemma sigmoid_above_30 x : (30 < x)%R -> sigmoid x = 1%R.
Proof.
  intros Hx. unfold sigmoid.
  destruct (Rlt_dec x (-30)); [lra |]. destruct (Rlt_dec 30 x); [reflexivity | lra].
Qed.

Lemma sigmoid_0 : sigmoid 0 = (1 / 2)%R.
Proof.
  unfold sigmoid.
  destruct (Rlt_dec 0 (-30)); [lra |]. destruct (Rlt_dec 30 0); [lra |].
  rewrite Ropp_0, exp_0. lra.
Qed.

Lemma softplus_0 : softplus 0 = ln 2.
Proof.
  unfold softplus.
  destruct (Rlt_dec 0 (-30)); [lra |]. destruct (Rlt_dec 30 0); [lra |].
  rewrite exp_0. by replace (1 + 1)%R with 2%R by lra.
Qed.

Lemma softplus_nonneg x : (0 <= softplus x)%R.
Proof.
  unfold softplus.
  destruct (Rlt_dec x (-30)); [lra |]. destruct (Rlt_dec 30 x); [lra |].
  pose proof (exp_pos x) as He.
  assert (Hl : (ln 1 < ln (1 + exp x))%R) by (apply ln_increasing; lra).
  rewrite ln_1 in Hl. lra.
Qed.

Lemma elemwise2_scalar_l f c a : elemwise2 f (scalar c) a = Ok (tmap (f c) a).
Proof. reflexivity. Qed.

Lemma elemwise2_scalar_r f a c :
  well_formed a -> elemwise2 f a (scalar c) = Ok (tmap (fun x => f x c) a).
Proof.
  destruct a as [sa ta]. unfold well_formed, elemwise2, tmap. simpl. intros Hwf.
  destruct sa as [| n sa]; [| reflexivity].
  apply conforms_leaf in Hwf as [x ->]. reflexivity.
Qed.

Lemma elemwise2_same_shape f a b :
  well_formed a -> well_formed b -> shape a = shape b ->
  elemwise2 f a b = Ok (NDArray (shape a) (nzip f (body a) (body b))).
Proof.
  destruct a as [sa ta], b as [sb tb]. unfold well_formed, elemwise2, tmap. simpl.
  intros Ha Hb <-. destruct sa as [| n sa].
  - apply conforms_leaf in Ha as [x ->]. apply conforms_leaf in Hb as [y ->]. reflexivity.
  - by rewrite bool_decide_eq_true_2.
Qed.

Lemma elemwise2_tmap_diag f g a :
  well_formed a -> elemwise2 f a (tmap g a) = Ok (tmap (fun x => f x (g x)) a).
Proof.
  intros Hwf. rewrite elemwise2_same_shape; [| done | by apply well_formed_tmap | done].
  unfold tmap. simpl. by rewrite nzip_nmap_diag.
Qed.

Lemma on_rows3_shape f last a m n k :
  shape a = [m; n; k] ->
  on_rows3 f last a = Ok (NDArray [m; n; last k] (imap_rows3 f (body a))).
Proof. unfold on_rows3. by intros ->. Qed.

(** ** Values of the expressions that the methods build *)

Section Values.
Variable inputs : string -> option ndarray.
Variable uniform : nat -> nat -> R.
Variable draw : sampler -> list ndarray -> ndarray.
Variable tem : R -> R.
Local Abbreviation ev := (eval inputs uniform draw tem).

Lemma eval_sample2 d e1 e2 :
  ev (ESample2 d e1 e2)
  = let? a := ev e1 in let? b := ev e2 in Ok (draw d [a; b]).
Proof. reflexivity. Qed.

Lemma eval_sigmoid a A :
  ev a = Ok A -> ev (activation_functions.sigmoid a) = Ok (tmap sigmoid A).
Proof. intros Ha. simpl. by rewrite Ha. Qed.

(** The free energy expression of [BinaryUnits]: one sum of [- softplus]
    per minibatch slice. *)
Lemma eval_sum_neg_softplus a A :
  ev a = Ok A -> well_formed A -> rank A = ndim a -> 1 <= ndim a ->
  ev (T.sum (- T.nnet_softplus a) (range 1 (ndim (- T.nnet_softplus a)%E)))
  = Ok (vector (map (fun c => sum_list (map (fun x => (- softplus x)%R) (entries c)))
                    (minibatch_slices A))).
Proof.
  intros Ha Hwf Hr Hn. simpl. rewrite Ha. simpl.
  set (A' := tmap Ropp (tmap softplus A)).
  assert (Hr' : rank A' = ndim a) by done.
  rewrite (proj2 (forallb_forall _ _)).
  2:{ intros k Hk. apply list_elem_of_In, range_1_spec in Hk.
      apply Nat.ltb_lt. rewrite Hr'. lia. }
  rewrite <- Hr', sum_axes_all_but_first.
  - f_equal. f_equal. unfold A'. rewrite !minibatch_slices_tmap, !map_map.
    apply map_ext. intros c. rewrite total_entries, !entries_nmap, map_map. reflexivity.
  - by do 2 apply well_formed_tmap.
  - lia.
Qed.

(** The logit of [SymmetricBinaryUnits] when the flipped activation is
    [1 - a]. *)
Lemma eval_symmetric_logit a A :
  ev a = Ok A -> well_formed A ->
  ev (activation_functions.sigmoid (a - (const 1 - a))%E)
  = Ok (tmap (fun x => sigmoid (2 * x - 1)) A).
Proof.
  intros Ha Hwf. simpl. rewrite Ha. simpl.
  rewrite elemwise2_tmap_diag by done. simpl. f_equal.
  unfold tmap. simpl. f_equal. rewrite nmap_nmap. apply nmap_ext.
  intros x. f_equal. lra.
Qed.

(** The transformation of [GaussianPrecisionProxyUnits]. *)
Lemma eval_square_half x X :
  ev x = Ok X -> well_formed X ->
  ev (x ^ 2 / const 2)%E = Ok (tmap (fun r => (r ^ 2 / 2)%R) X).
Proof.
  intros Hx Hwf. simpl. rewrite Hx. simpl.
  rewrite elemwise2_scalar_r by by apply well_formed_tmap.
  f_equal. unfold tmap. simpl. by rewrite nmap_nmap.
Qed.

End Values.

(** ** Construction of units *)

Lemma setattr_insert_eq o a v ob (h : gmap positive object) :
  setattr o a v (<[o := ob]> h) = <[o := Object (cls ob) (<[a := v]> (attrs ob))]> h.
Proof. unfold setattr. by rewrite alter_insert_eq. Qed.

Lemma setattr_insert_ne o o' a v ob (h : gmap positive object) :
  o <> o' ->
  setattr o a v (<[o' := ob]> h) = <[o' := ob]> (setattr o a v h).
Proof. intros Hne. unfold setattr. by rewrite alter_insert_ne. Qed.

Lemma construct_eq c init (h : gmap positive object) :
  construct c init h
  = (fresh (dom h), init (fresh (dom h)) (<[fresh (dom h) := Object c ∅]> h)).
Proof. reflexivity. Qed.

Lemma Units__init___fresh self c rbm name (h : gmap positive object) :
  base.Units__init__ self rbm name (<[self := Object c ∅]> h)
  = <[self := Object c (unit_attrs rbm name)]> h.
Proof. unfold base.Units__init__. by rewrite !setattr_insert_eq. Qed.

Lemma ProxyUnits__init___fresh self c rbm units func name (h : gmap positive object) :
  base.ProxyUnits__init__ self rbm units func name (<[self := Object c ∅]> h)
  = <[self := Object c (proxy_attrs rbm name units func)]> h.
Proof.
  unfold base.ProxyUnits__init__. by rewrite Units__init___fresh, !setattr_insert_eq.
Qed.

(** The two objects that a constructor allocates are new and distinct. *)
Lemma fresh_after_insert (h : gmap positive object) ob :
  let u := fresh (dom h) in
  let p := fresh (dom (<[u := ob]> h)) in
  (u ∉ dom h) /\ (p ∉ dom h) /\ p <> u.
Proof.
  intros u p. pose proof (is_fresh (dom h)) as Hu.
  pose proof (is_fresh (dom (<[u := ob]> h))) as Hp. fold u in Hu. fold p in Hp.
  rewrite dom_insert_L in Hp.
  apply not_elem_of_union in Hp as [Hp1 Hp2].
  apply not_elem_of_singleton in Hp1. auto.
Qed.

(** The heap after [__init__] of a unit class that creates one proxy and
    binds it to the attribute [attr]. *)
Lemma init_with_proxy_eq c pc attr func rbm name pname (h : gmap positive object) :
  let u := fresh (dom h) in
  let p := fresh (dom (<[u := Object c (unit_attrs rbm name)]> h)) in
  (let h1 := base.Units__init__ u rbm name (<[u := Object c ∅]> h) in
   let '(q, h2) := construct pc
                     (fun q => base.ProxyUnits__init__ q rbm u func pname) h1 in
   setattr u "proxy_units" (VList [q]) (setattr u attr (VRef q) h2))
  = <[p := Object pc (proxy_attrs rbm pname u func)]>
      (<[u := Object c (<["proxy_units" := VList [p]]>
                          (<[attr := VRef p]> (unit_attrs rbm name)))]> h).
Proof.
  intros u p. cbv zeta. rewrite Units__init___fresh, construct_eq. fold p.
  rewrite ProxyUnits__init___fresh.
  destruct (fresh_after_insert h (Object c (unit_attrs rbm name))) as (_ & _ & Hne).
  fold u p in Hne.
  rewrite setattr_insert_ne, setattr_insert_eq by done.
  rewrite setattr_insert_ne, setattr_insert_eq by done.
  reflexivity.
Qed.

Lemma GaussianUnits_new_eq rbm name (h : gmap positive object) :
  let u := fresh (dom h) in
  let p := fresh (dom (<[u := Object GaussianUnits (unit_attrs rbm name)]> h)) in
  GaussianUnits_new rbm name h
  = (u, <[p := Object GaussianPrecisionProxyUnits
                  (proxy_attrs rbm (proxy_name_of name "_precision") u
                     (fun x => (x ^ 2 / const 2)%E))]>
          (<[u := Object GaussianUnits
                    (<["proxy_units" := VList [p]]>
                       (<["precision_units" := VRef p]> (unit_attrs rbm name)))]> h)).
Proof.
  intros u p. unfold GaussianUnits_new. rewrite construct_eq. fold u. f_equal.
  apply (init_with_proxy_eq GaussianUnits GaussianPrecisionProxyUnits).
Qed.

(** What the statements about a unit with one proxy assume, for the heap
    that the constructor returns. *)
Lemma new_with_proxy_attr c pc attr func rbm name pname (h : gmap positive object) :
  let u := fresh (dom h) in
  let p := fresh (dom (<[u := Object c (unit_attrs rbm name)]> h)) in
  let h' := <[p := Object pc (proxy_attrs rbm pname u func)]>
              (<[u := Object c (<["proxy_units" := VList [p]]>
                                  (<[attr := VRef p]> (unit_attrs rbm name)))]> h) in
  attr <> "proxy_units"%string ->
  attr_is_unit h' u attr p /\ u <> p /\ class_of h' u = Some c /\ class_of h' p = Some pc.
Proof.
  intros u p h' Hattr.
  destruct (fresh_after_insert h (Object c (unit_attrs rbm name))) as (_ & _ & Hne).
  fold u p in Hne. unfold class_of, h'. repeat split.
  - eexists. split; [by rewrite lookup_insert_ne, lookup_insert_eq |].
    simpl. by rewrite lookup_insert_ne, lookup_insert_eq.
  - done.
  - by rewrite lookup_insert_ne, lookup_insert_eq.
  - by rewrite lookup_insert_eq.
Qed.

Lemma GammaUnits_new_log_units rbm name (h : gmap positive object) :
  exists p,
    attr_is_unit (GammaUnits_new rbm name h).2 (GammaUnits_new rbm name h).1 "log_units" p
    /\ (GammaUnits_new rbm name h).1 <> p.
Proof.
  unfold GammaUnits_new. rewrite construct_eq. unfold GammaUnits__init__.
  unfold GammaLogProxyUnits__init__.
  rewrite (init_with_proxy_eq GammaUnits GammaLogProxyUnits "log_units"). simpl.
  eexists. split; [| apply (new_with_proxy_attr GammaUnits GammaLogProxyUnits "log_units"); done].
  by apply (new_with_proxy_attr GammaUnits GammaLogProxyUnits "log_units").
Qed.

Lemma LearntPrecisionGaussianUnits_new_precision_units rbm name (h : gmap positive object) :
  exists p,
    attr_is_unit (LearntPrecisionGaussianUnits_new rbm name h).2
      (LearntPrecisionGaussianUnits_new rbm name h).1 "precision_units" p
    /\ (LearntPrecisionGaussianUnits_new rbm name h).1 <> p.
Proof.
  unfold LearntPrecisionGaussianUnits_new. rewrite construct_eq.
  unfold LearntPrecisionGaussianUnits__init__, LearntPrecisionGaussianProxyUnits__init__.
  rewrite (init_with_proxy_eq LearntPrecisionGaussianUnits
             LearntPrecisionGaussianProxyUnits "precision_units"). simpl.
  eexists. split;
    [| apply (new_with_proxy_attr LearntPrecisionGaussianUnits
                LearntPrecisionGaussianProxyUnits "precision_units"); done].
  by apply (new_with_proxy_attr LearntPrecisionGaussianUnits
              LearntPrecisionGaussianProxyUnits "precision_units").
Qed.

Lemma SymmetricBinaryUnits_new_flipped_units rbm name (h : gmap positive object) :
  exists p,
    attr_is_unit (SymmetricBinaryUnits_new rbm name h).2
      (SymmetricBinaryUnits_new rbm name h).1 "flipped_units" p
    /\ (SymmetricBinaryUnits_new rbm name h).1 <> p.
Proof.
  unfold SymmetricBinaryUnits_new. rewrite construct_eq.
  unfold SymmetricBinaryUnits__init__, SymmetricBinaryProxyUnits__init__.
  rewrite (init_with_proxy_eq SymmetricBinaryUnits SymmetricBinaryProxyUnits
             "flipped_units"). simpl.
  eexists. split;
    [| apply (new_with_proxy_attr SymmetricBinaryUnits SymmetricBinaryProxyUnits
                "flipped_units"); done].
  by apply (new_with_proxy_attr SymmetricBinaryUnits SymmetricBinaryProxyUnits
              "flipped_units").
Qed.

(** ** The entries of [vmap] that a call reads *)

Lemma rc_ret {A} (vmap : gmap positive expr) (a : A) : reads_consistent vmap (ret a).
Proof.
  split; [intros k Hk | intros b _ k Hk]; by apply elem_of_nil in Hk.
Qed.

Lemma rc_raise {A} (vmap : gmap positive expr) e : reads_consistent vmap (@raise A e).
Proof. split; [intros k Hk; by apply elem_of_nil in Hk | discriminate]. Qed.

Lemma rc_lift {A} (vmap : gmap positive expr) (r : result A) :
  reads_consistent vmap (lift r).
Proof.
  split; [intros k Hk | intros b _ k Hk]; by apply elem_of_nil in Hk.
Qed.

Lemma rc_vmap_get (vmap : gmap positive expr) k : reads_consistent vmap (vmap_get vmap k).
Proof.
  unfold reads_consistent, vmap_get, reads, outcome. simpl. split.
  - intros k' Hk' Hn. apply list_elem_of_singleton in Hk' as ->. by rewrite Hn.
  - intros a Ha k' Hk'. apply list_elem_of_singleton in Hk' as ->.
    destruct (vmap !! k); [eauto | discriminate].
Qed.

Lemma rc_bind {A B} (vmap : gmap positive expr) (m : M A) (K : A -> M B) :
  reads_consistent vmap m -> (forall a, reads_consistent vmap (K a)) ->
  reads_consistent vmap (bind m K).
Proof.
  intros [Hm1 Hm2] HK. unfold reads_consistent, bind, reads, outcome in *.
  destruct m as [l [a | e]]; simpl in *.
  - destruct (HK a) as [HK1 HK2]. split.
    + intros k Hk Hn. apply elem_of_app in Hk as [Hk | Hk]; [| by apply HK1].
      destruct (Hm2 a eq_refl k Hk) as [x Hx]. congruence.
    + intros b Hb k Hk.
      apply elem_of_app in Hk as [Hk | Hk]; [by eapply Hm2 | by eapply HK2].
  - split; [| discriminate].
    intros k Hk Hn. specialize (Hm1 k Hk Hn). congruence.
Qed.

Lemma rc_getattr (vmap : gmap positive expr) h o a :
  reads_consistent vmap (getattr h o a).
Proof.
  unfold getattr. destruct (h !! o) as [ob |]; [| apply rc_raise].
  destruct (attrs ob !! a); [apply rc_ret | apply rc_raise].
Qed.

Lemma rc_as_unit (vmap : gmap positive expr) v : reads_consistent vmap (as_unit v).
Proof. destruct v; first [apply rc_ret | apply rc_raise]. Qed.

Lemma rc_load_name (vmap : gmap positive expr) locals x :
  reads_consistent vmap (load_name locals x).
Proof.
  unfold load_name. destruct (list_find _ locals) as [[i [y [e |]]] |];
    [apply rc_ret | apply rc_raise |].
  destruct (bool_decide _); apply rc_raise.
Qed.

Lemma rc_subscript (vmap : gmap positive expr) s0 :
  reads_consistent vmap (subscript_drop_last_state s0).
Proof.
  unfold subscript_drop_last_state.
  destruct (3 <=? ndim s0); [apply rc_ret | apply rc_raise].
Qed.

Create HintDb rc.
#[local] Hint Resolve rc_ret rc_raise rc_lift rc_vmap_get rc_getattr rc_as_unit
  rc_load_name rc_subscript : rc.

Ltac rc_steps :=
  repeat first [ apply rc_bind; [| intros ?] | solve [auto with rc] ].

Ltac unfold_methods :=
  unfold BinaryUnits_sample_from_activation, BinaryUnits_mean_field_from_activation,
    BinaryUnits_free_energy_term_from_activation, GaussianUnits_sample_from_activation,
    GaussianUnits_mean_field_from_activation,
    LearntPrecisionGaussianUnits_sample_from_activation,
    SoftmaxUnits_sample_from_activation, SoftmaxWithZeroUnits_sample_from_activation,
    TruncatedExponentialUnits_sample_from_activation,
    TruncatedExponentialUnits_mean_field_from_activation,
    ExponentialUnits_sample_from_activation, ExponentialUnits_mean_field_from_activation,
    NRELUnits_sample_from_activation, NRELUnits_mean_field_from_activation,
    GammaUnits_sample_from_activation, SymmetricBinaryUnits_sample_from_activation,
    SymmetricBinaryUnits_mean_field_from_activation,
    SymmetricBinaryUnits_free_energy_term_from_activation.

(** Every method of every class keeps its reads and its outcome in step. *)
Lemma rc_call_method T_max (vmap : gmap positive expr) h self m :
  reads_consistent vmap (call_method T_max h self m vmap).
Proof.
  unfold call_method. destruct (h !! self) as [ob |]; [| apply rc_raise].
  destruct (cls ob), m; try apply rc_raise; unfold_methods; rc_steps.
Qed.

(** ** Rows of a rank-3 array and one-hot rows *)

Lemma imap_imap {A B C} (f : nat -> B -> C) (g : nat -> A -> B) (l : list A) :
  imap f (imap g l) = imap (fun i x => f i (g i x)) l.
Proof.
  revert f g. induction l as [| x l IH]; intros f g; simpl; [reflexivity |].
  f_equal. apply IH.
Qed.

Lemma row_of_of_row r : row_of (of_row r) = r.
Proof. unfold row_of, of_row. rewrite map_map. simpl. apply map_id. Qed.

Lemma imap_rows3_compose f g t :
  imap_rows3 f (imap_rows3 g t) = imap_rows3 (fun i j r => f i j (g i j r)) t.
Proof.
  destruct t as [x | l0]; simpl; [reflexivity |]. f_equal.
  rewrite imap_imap. apply imap_ext. intros i t1 _.
  destruct t1 as [x | l1]; simpl; [reflexivity |]. f_equal.
  rewrite imap_imap. apply imap_ext. intros j t2 _.
  by rewrite row_of_of_row.
Qed.

Lemma Forall_rows_imap (P : list R -> Prop) (F : nat -> list R -> list R) l1 :
  (forall j r, P (F j r)) ->
  Forall P (map row_of (imap (fun j t2 => of_row (F j (row_of t2))) l1)).
Proof.
  revert F. induction l1 as [| t2 l1 IH]; intros F HF; simpl; [constructor |].
  constructor; [rewrite row_of_of_row; apply HF |].
  apply (IH (fun j => F (S j))). intros j r. apply HF.
Qed.

Lemma Forall_rows3_imap_rows3 (P : list R -> Prop) f t :
  (forall i j r, P (f i j r)) -> Forall P (rows3 (imap_rows3 f t)).
Proof.
  destruct t as [x | l0]; simpl; [constructor |].
  revert f. induction l0 as [| t1 l0 IH]; intros f Hf; simpl; [constructor |].
  apply Forall_app. split.
  - destruct t1 as [x | l1]; [constructor |]. apply Forall_rows_imap, Hf.
  - apply (IH (fun i => f (S i))). intros i j r. apply Hf.
Qed.

Lemma length_one_hot n i : length (one_hot n i) = n.
Proof. unfold one_hot. by rewrite length_map, length_seq. Qed.

Lemma lookup_one_hot n i j :
  j < n -> one_hot n i !! j = Some (if Nat.eqb j i then 1%R else 0%R).
Proof.
  intros Hj. unfold one_hot.
  change (map ?f ?l) with (f <$> l).
  rewrite list_lookup_fmap, lookup_seq_lt by done. reflexivity.
Qed.

Lemma removelast_one_hot n i : removelast (one_hot (S n) i) = one_hot n i.
Proof. unfold one_hot. rewrite seq_S, map_app. simpl. apply removelast_last. Qed.

(** A one-hot row cut to [n] states: the one is still there, or it was in
    the part cut off and the row is all zeros. *)
Lemma one_hot_zero_or_one n i :
  all_zero (one_hot n i) \/ exactly_one_one (one_hot n i).
Proof.
  destruct (decide (i < n)) as [Hi | Hi].
  - right. exists i. split.
    + rewrite lookup_one_hot by done. by rewrite Nat.eqb_refl.
    + intros j Hne Hj. rewrite length_one_hot in Hj. rewrite lookup_one_hot by done.
      by rewrite (proj2 (Nat.eqb_neq j i)).
  - left. unfold all_zero, one_hot. apply Forall_forall. intros x Hx.
    apply list_elem_of_In, in_map_iff in Hx as (j & <- & Hj). apply in_seq in Hj.
    rewrite (proj2 (Nat.eqb_neq j i)) by lia. reflexivity.
Qed.

(** The two cases exclude each other: no row has two ones. *)
Lemma exactly_one_one_unique r i j :
  exactly_one_one r -> r !! i = Some 1%R -> r !! j = Some 1%R -> i = j.
Proof.
  intros (i0 & H1 & H0) Hi Hj.
  assert (G : forall k, r !! k = Some 1%R -> k = i0).
  { intros k Hk. destruct (decide (k = i0)) as [-> | Hne]; [reflexivity |].
    rewrite (H0 k Hne) in Hk by (by eapply lookup_lt_Some).
    injection Hk as Hk. lra. }
  by rewrite (G i Hi), (G j Hj).
Qed.

Lemma length_softmax_with_zero_row r : length (softmax_with_zero_row r) = S (length r).
Proof.
  unfold softmax_with_zero_row, softmax_row. rewrite length_map, length_app. simpl. lia.
Qed.

(** The state that is drawn is one of the states. *)
Lemma pick_lt p u : p <> [] -> pick p u < length p.
Proof.
  revert u. induction p as [| x p IH]; intros u Hp; [done |]. simpl.
  destruct (Rlt_dec u x); [lia |].
  destruct p as [| y p]; [simpl; lia |].
  specialize (IH (u - x)%R ltac:(done)). simpl in *. lia.
Qed.

Lemma all_zero_no_one r i : all_zero r -> r !! i = Some 1%R -> False.
Proof.
  intros Hz Hi. unfold all_zero in Hz. rewrite Forall_forall in Hz.
  assert (H1 : 1%R = 0%R) by (apply Hz; by eapply list_elem_of_lookup_2).
  lra.
Qed.

(** Dropping the zero state from a draw over the N+1 states. *)
Lemma drop_zero_state_row u r :
  removelast (multinomial_row u (softmax_with_zero_row r))
  = one_hot (length r) (pick (softmax_with_zero_row r) u).
Proof.
  unfold multinomial_row. rewrite length_softmax_with_zero_row. apply removelast_one_hot.
Qed.

(** * Properties of the methods *)

(** C1: when [vmap] holds the activation [a1] of a
    [LearntPrecisionGaussianUnits] instance and the activation [a2] of its
    precision proxy, [sample_from_activation] returns the Gaussian sampler
    applied to the mean [a1 / (-2 * a2)] and the variance [1 / (-2 * a2)];
    where [a2] is strictly negative that variance is strictly positive, and
    the value returned is the sampler's draw for these two arrays. *)
Theorem learnt_precision_gaussian_sample_from_activation
    (inputs : string -> option ndarray) (uniform : nat -> nat -> R)
    (draw : sampler -> list ndarray -> ndarray) (tem : R -> R)
    (h : gmap positive object) (self p : positive) (vmap : gmap positive expr)
    (a1 a2 : expr) :
  attr_is_unit h self "precision_units" p ->
  vmap !! self = Some a1 -> vmap !! p = Some a2 ->
  outcome (LearntPrecisionGaussianUnits_sample_from_activation h self vmap)
    = Ok (samplers.gaussian (a1 / (const (-2) * a2)) (const 1 / (const (-2) * a2)))
  /\ forall A1 A2,
       eval inputs uniform draw tem a1 = Ok A1 ->
       eval inputs uniform draw tem a2 = Ok A2 ->
       well_formed A1 -> well_formed A2 -> shape A1 = shape A2 ->
       all_entries (fun y => (y < 0)%R) A2 ->
       let mean := NDArray (shape A1)
                     (nzip (fun x y => (x / (-2 * y))%R) (body A1) (body A2)) in
       let var := tmap (fun y => (1 / (-2 * y))%R) A2 in
       eval inputs uniform draw tem (a1 / (const (-2) * a2))%E = Ok mean
       /\ eval inputs uniform draw tem (const 1 / (const (-2) * a2))%E = Ok var
       /\ all_entries (fun v => (0 < v)%R) var
       /\ value_of inputs uniform draw tem
            (LearntPrecisionGaussianUnits_sample_from_activation h self vmap)
          = Ok (draw Gaussian [mean; var]).
Proof.
  intros Hat H1 H2.
  assert (Hc : outcome (LearntPrecisionGaussianUnits_sample_from_activation h self vmap)
    = Ok (samplers.gaussian (a1 / (const (-2) * a2)) (const 1 / (const (-2) * a2)))).
  { unfold LearntPrecisionGaussianUnits_sample_from_activation.
    rewrite (bind_vmap_get_some _ _ _ _ H1). simpl outcome.
    rewrite (bind_getattr_unit _ _ _ _ _ Hat). simpl as_unit.
    rewrite bind_ret, (bind_vmap_get_some _ _ _ _ H2). reflexivity. }
  split; [exact Hc |].
  intros A1 A2 E1 E2 W1 W2 Hsh Hneg mean var.
  assert (Em : eval inputs uniform draw tem (a1 / (const (-2) * a2))%E = Ok mean).
  { simpl. rewrite E1, E2. simpl.
    rewrite elemwise2_same_shape; [| done | by apply well_formed_tmap | done].
    unfold mean. simpl. by rewrite nzip_nmap_r. }
  assert (Ev : eval inputs uniform draw tem (const 1 / (const (-2) * a2))%E = Ok var).
  { simpl. rewrite E2. simpl. rewrite elemwise2_scalar_l. f_equal.
    unfold var, tmap. simpl. by rewrite nmap_nmap. }
  split; [exact Em |]. split; [exact Ev |]. split.
  - unfold all_entries, var, tmap in *. simpl. rewrite entries_nmap.
    apply Forall_forall. intros v Hv.
    apply list_elem_of_In, in_map_iff in Hv as (y & <- & Hy).
    apply list_elem_of_In in Hy. rewrite Forall_forall in Hneg. specialize (Hneg y Hy).
    apply Rdiv_lt_0_compat; lra.
  - unfold value_of. rewrite Hc, result_bind_ok.
    unfold samplers.gaussian. by rewrite eval_sample2, Em, Ev.
Qed.

Lemma learnt_precision_gaussian_sample_from_activation_witness :
  let h := (LearntPrecisionGaussianUnits_new 1%positive None ∅).2 in
  let vmap : gmap positive expr := <[2%positive := const (-1)]> {[1%positive := const 3]} in
  outcome (LearntPrecisionGaussianUnits_sample_from_activation h 1%positive vmap)
    = Ok (samplers.gaussian (const 3 / (const (-2) * const (-1)))
            (const 1 / (const (-2) * const (-1))))
  /\ all_entries (fun v => (0 < v)%R) (tmap (fun y => (1 / (-2 * y))%R) (scalar (-1))).
Proof.
  intros h vmap.
  destruct (learnt_precision_gaussian_sample_from_activation
              no_inputs uniform_half draw_zero tem_id h 1%positive 2%positive vmap
              (const 3) (const (-1))) as [Hc Hv].
  - eexists. split; vm_compute; reflexivity.
  - reflexivity.
  - reflexivity.
  - split; [exact Hc |].
    apply (Hv (scalar 3) (scalar (-1))); try reflexivity.
    constructor; [lra | constructor].
Defined.

(** C2: [NRELUnits.sample_from_activation] returns nothing: whatever [vmap]
    holds, the call raises [NameError] for the name [a], before it reads any
    entry of [vmap]. *)
Theorem nrel_sample_from_activation_raises_name_error
    (T_max : expr -> expr -> result expr) (self : positive) (vmap : gmap positive expr) :
  outcome (NRELUnits_sample_from_activation T_max self vmap) = Raise (NameError "a")
  /\ reads (NRELUnits_sample_from_activation T_max self vmap) = [].
Proof. split; reflexivity. Qed.

(** C3: for an activation [a] of rank at least 2,
    [BinaryUnits.free_energy_term_from_activation] returns the sum of
    [- softplus a] over the axes 1 to [ndim a - 1]; its value is a vector with
    one entry per minibatch example, the sum of [- softplus] over all the
    entries of that example's slice.  For [a = [[0.0]]] the value is
    [[- ln 2]]. *)
Theorem binary_free_energy_term_sums_all_but_minibatch_axis
    (inputs : string -> option ndarray) (uniform : nat -> nat -> R)
    (draw : sampler -> list ndarray -> ndarray) (tem : R -> R)
    (self : positive) (vmap : gmap positive expr) (a : expr) (A : ndarray) :
  vmap !! self = Some a ->
  eval inputs uniform draw tem a = Ok A ->
  well_formed A -> rank A = ndim a -> 2 <= ndim a ->
  outcome (BinaryUnits_free_energy_term_from_activation self vmap)
    = Ok (T.sum (- T.nnet_softplus a) (range 1 (ndim a)))
  /\ value_of inputs uniform draw tem
       (BinaryUnits_free_energy_term_from_activation self vmap)
     = Ok (vector (map (fun c => sum_list (map (fun x => (- softplus x)%R) (entries c)))
                       (minibatch_slices A)))
  /\ value_of inputs uniform draw tem
       (BinaryUnits_free_energy_term_from_activation self
          {[self := EConst (matrix [[0%R]])]})
     = Ok (vector [(- ln 2)%R]).
Proof.
  intros Hv Ha Hwf Hr Hn. unfold value_of, BinaryUnits_free_energy_term_from_activation.
  rewrite (bind_vmap_get_some _ _ _ _ Hv). simpl outcome.
  split; [reflexivity |]. split.
  - simpl result_bind. apply eval_sum_neg_softplus; [done | done | done | lia].
  - rewrite (bind_vmap_get_some _ _ (EConst (matrix [[0%R]])))
      by apply lookup_singleton_eq.
    simpl outcome. simpl result_bind.
    etrans.
    { apply (eval_sum_neg_softplus inputs uniform draw tem
               (EConst (matrix [[0%R]])) (matrix [[0%R]]));
        [reflexivity | reflexivity | reflexivity |].
      unfold ndim, rank, matrix. simpl. lia. }
    simpl. unfold vector, sum_list. simpl. rewrite softplus_0. by rewrite Rplus_0_r.
Qed.

Lemma binary_free_energy_term_sums_all_but_minibatch_axis_witness :
  let A := matrix [[1%R; 2%R]; [3%R; 4%R]] in
  value_of no_inputs uniform_half draw_zero tem_id
    (BinaryUnits_free_energy_term_from_activation 1%positive {[1%positive := EConst A]})
  = Ok (vector [(- softplus 1 + (- softplus 2 + 0))%R;
                (- softplus 3 + (- softplus 4 + 0))%R]).
Proof.
  intros A.
  apply (binary_free_energy_term_sums_all_but_minibatch_axis
           no_inputs uniform_half draw_zero tem_id 1%positive
           {[1%positive := EConst A]} (EConst A) A).
  - apply lookup_singleton_eq.
  - reflexivity.
  - reflexivity.
  - reflexivity.
  - unfold ndim, rank, A, matrix. simpl. lia.
Defined.

(** C4: with the activation [a] for a [SymmetricBinaryUnits] instance and
    [1 - a] for its flipped proxy, [mean_field_from_activation] returns what
    [BinaryUnits.mean_field_from_activation] returns for the activation
    [a - (1 - a)], and the value of both is [sigmoid (2 a - 1)], entry by
    entry. *)
Theorem symmetric_mean_field_reduces_to_binary
    (inputs : string -> option ndarray) (uniform : nat -> nat -> R)
    (draw : sampler -> list ndarray -> ndarray) (tem : R -> R)
    (h : gmap positive object) (self f : positive) (a : expr) (A : ndarray) :
  attr_is_unit h self "flipped_units" f -> self <> f ->
  eval inputs uniform draw tem a = Ok A -> well_formed A ->
  outcome (SymmetricBinaryUnits_mean_field_from_activation h self
             (<[f := (const 1 - a)%E]> {[self := a]}))
    = outcome (BinaryUnits_mean_field_from_activation self
                 {[self := (a - (const 1 - a))%E]})
  /\ value_of inputs uniform draw tem
       (SymmetricBinaryUnits_mean_field_from_activation h self
          (<[f := (const 1 - a)%E]> {[self := a]}))
     = Ok (tmap (fun x => sigmoid (2 * x - 1)) A)
  /\ value_of inputs uniform draw tem
       (BinaryUnits_mean_field_from_activation self {[self := (a - (const 1 - a))%E]})
     = Ok (tmap (fun x => sigmoid (2 * x - 1)) A).
Proof.
  intros Hat Hne Ha Hwf.
  assert (Hs : outcome (SymmetricBinaryUnits_mean_field_from_activation h self
             (<[f := (const 1 - a)%E]> {[self := a]}))
           = Ok (activation_functions.sigmoid (a - (const 1 - a))%E)).
  { unfold SymmetricBinaryUnits_mean_field_from_activation.
    rewrite (bind_vmap_get_some _ _ a)
      by (rewrite lookup_insert_ne by done; apply lookup_singleton_eq).
    simpl outcome. rewrite (bind_getattr_unit _ _ _ _ _ Hat). simpl as_unit.
    rewrite bind_ret, (bind_vmap_get_some _ _ (const 1 - a)%E) by apply lookup_insert_eq.
    reflexivity. }
  assert (Hb : outcome (BinaryUnits_mean_field_from_activation self
                 {[self := (a - (const 1 - a))%E]})
           = Ok (activation_functions.sigmoid (a - (const 1 - a))%E)).
  { unfold BinaryUnits_mean_field_from_activation.
    rewrite (bind_vmap_get_some _ _ (a - (const 1 - a))%E) by apply lookup_singleton_eq.
    reflexivity. }
  unfold value_of. rewrite Hs, Hb, result_bind_ok.
  rewrite (eval_symmetric_logit inputs uniform draw tem a A Ha Hwf). auto.
Qed.

Lemma symmetric_mean_field_reduces_to_binary_witness :
  let h := (SymmetricBinaryUnits_new 1%positive None ∅).2 in
  let a := EConst (matrix [[0%R]]) in
  value_of no_inputs uniform_half draw_zero tem_id
    (SymmetricBinaryUnits_mean_field_from_activation h 1%positive
       (<[2%positive := (const 1 - a)%E]> {[1%positive := a]}))
  = Ok (tmap (fun x => sigmoid (2 * x - 1)) (matrix [[0%R]])).
Proof.
  intros h a.
  apply (symmetric_mean_field_reduces_to_binary
           no_inputs uniform_half draw_zero tem_id h 1%positive 2%positive a
           (matrix [[0%R]])).
  - eexists. split; vm_compute; reflexivity.
  - discriminate.
  - reflexivity.
  - reflexivity.
Defined.

(** C5: [GammaUnits.sample] resolves the two activations [a1] (its own) and
    [a2] (of the log proxy) and returns what [sample_from_activation] returns
    for the two-key vmap it builds from them, which is the approximate gamma
    sampler applied to the shape [a2 + 1] and the scale [-1 / a1]; the two
    calls therefore have the same value under every realisation of the
    randomness. *)
Theorem gamma_sample_delegates_to_sample_from_activation
    (activation : gmap positive object -> positive -> gmap positive expr -> M expr)
    (h : gmap positive object) (self p : positive) (vmap : gmap positive expr)
    (a1 a2 : expr) :
  attr_is_unit h self "log_units" p -> self <> p ->
  outcome (activation h self vmap) = Ok a1 ->
  outcome (activation h p vmap) = Ok a2 ->
  let inline : gmap positive expr := <[p := a2]> {[self := a1]} in
  dom inline = {[self; p]}
  /\ outcome (GammaUnits_sample activation h self vmap)
     = outcome (GammaUnits_sample_from_activation h self inline)
  /\ outcome (GammaUnits_sample_from_activation h self inline)
     = Ok (samplers.gamma_approx (a2 + const 1) (const (-1) / a1))
  /\ forall inputs uniform draw tem,
       value_of inputs uniform draw tem (GammaUnits_sample activation h self vmap)
       = value_of inputs uniform draw tem (GammaUnits_sample_from_activation h self inline).
Proof.
  intros Hat Hne H1 H2 inline.
  assert (Hd : outcome (GammaUnits_sample activation h self vmap)
               = outcome (GammaUnits_sample_from_activation h self inline)).
  { unfold GammaUnits_sample.
    rewrite (outcome_bind_ok _ _ _ H1), (bind_getattr_unit _ _ _ _ _ Hat).
    simpl as_unit. rewrite bind_ret, (outcome_bind_ok _ _ _ H2).
    rewrite (bind_getattr_unit _ _ _ _ _ Hat). simpl as_unit. by rewrite bind_ret. }
  split; [| split; [exact Hd | split]].
  - unfold inline. rewrite dom_insert_L, dom_singleton_L. apply union_comm_L.
  - unfold GammaUnits_sample_from_activation, inline.
    rewrite (bind_vmap_get_some _ _ a1)
      by (rewrite lookup_insert_ne by done; apply lookup_singleton_eq).
    simpl outcome. rewrite (bind_getattr_unit _ _ _ _ _ Hat). simpl as_unit.
    rewrite bind_ret, (bind_vmap_get_some _ _ a2) by apply lookup_insert_eq.
    reflexivity.
  - intros inputs uniform draw tem. unfold value_of. by rewrite Hd.
Qed.

Lemma gamma_sample_delegates_to_sample_from_activation_witness :
  let h := (GammaUnits_new 1%positive None ∅).2 in
  outcome (GammaUnits_sample activation_example h 1%positive ∅)
  = Ok (samplers.gamma_approx (const 0 + const 1) (const (-1) / const (-1))).
Proof.
  intros h.
  destruct (gamma_sample_delegates_to_sample_from_activation
              activation_example h 1%positive 2%positive ∅ (const (-1)) (const 0))
    as (_ & Hd & Hg & _).
  - eexists. split; vm_compute; reflexivity.
  - discriminate.
  - reflexivity.
  - reflexivity.
  - by rewrite Hd, Hg.
Defined.

(** C6: for a rank-3 activation of a [SoftmaxWithZeroUnits] instance,
    [sample_from_activation] returns the multinomial draw over the softmax
    with the implicit zero state, with the last state column dropped; in its
    value every (minibatch, unit) row is the draw over the N+1 states without
    its last entry, and such a row is all zeros or has exactly one entry equal
    to 1 and zeros elsewhere, never two entries equal to 1. *)
Theorem softmax_with_zero_sample_rows
    (inputs : string -> option ndarray) (uniform : nat -> nat -> R)
    (draw : sampler -> list ndarray -> ndarray) (tem : R -> R)
    (self : positive) (vmap : gmap positive expr) (a : expr) (A : ndarray)
    (m n k : nat) :
  vmap !! self = Some a -> ndim a = 3 ->
  eval inputs uniform draw tem a = Ok A -> shape A = [m; n; k] ->
  outcome (SoftmaxWithZeroUnits_sample_from_activation self vmap)
    = Ok (EDropLast2 (samplers.multinomial (activation_functions.softmax_with_zero a)))
  /\ exists S0 : ndarray,
       value_of inputs uniform draw tem
         (SoftmaxWithZeroUnits_sample_from_activation self vmap) = Ok S0
       /\ shape S0 = [m; n; k]
       /\ body S0
          = imap_rows3
              (fun i j r =>
                 removelast (multinomial_row (uniform i j) (softmax_with_zero_row r)))
              (body A)
       /\ Forall (fun r => (all_zero r \/ exactly_one_one r)
                          /\ forall i j, r !! i = Some 1%R -> r !! j = Some 1%R -> i = j)
            (rows3 (body S0)).
Proof.
  intros Hv Hn Ha Hsh.
  assert (Hc : outcome (SoftmaxWithZeroUnits_sample_from_activation self vmap)
    = Ok (EDropLast2 (samplers.multinomial (activation_functions.softmax_with_zero a)))).
  { unfold SoftmaxWithZeroUnits_sample_from_activation.
    rewrite (bind_vmap_get_some _ _ _ _ Hv). simpl outcome.
    unfold subscript_drop_last_state. simpl ndim. rewrite Hn. reflexivity. }
  split; [exact Hc |].
  unfold value_of. rewrite Hc, result_bind_ok. simpl. rewrite Ha. simpl.
  rewrite (on_rows3_shape _ _ _ m n k Hsh), result_bind_ok.
  rewrite (on_rows3_shape _ _ (NDArray [m; n; S k] _) m n (S k) eq_refl), result_bind_ok.
  rewrite (on_rows3_shape _ _ (NDArray [m; n; S k] _) m n (S k) eq_refl).
  eexists. split; [reflexivity |]. simpl. split; [reflexivity |].
  rewrite !imap_rows3_compose. split; [reflexivity |].
  apply Forall_rows3_imap_rows3. intros i j r.
  rewrite drop_zero_state_row.
  pose proof (one_hot_zero_or_one (length r) (pick (softmax_with_zero_row r) (uniform i j)))
    as Hrow.
  split; [exact Hrow |]. intros i' j' Hi Hj.
  destruct Hrow as [Hz | Ho]; [by destruct (all_zero_no_one _ _ Hz Hi) |].
  by apply (exactly_one_one_unique _ _ _ Ho).
Qed.

Lemma softmax_with_zero_sample_rows_witness :
  let A := NDArray [1; 1; 2] (Arr [Arr [Arr [Leaf 0%R; Leaf 0%R]]]) in
  exists S0 : ndarray,
    value_of no_inputs uniform_half draw_zero tem_id
      (SoftmaxWithZeroUnits_sample_from_activation 1%positive {[1%positive := EConst A]})
    = Ok S0
    /\ shape S0 = [1; 1; 2]
    /\ Forall (fun r => (all_zero r \/ exactly_one_one r)
                       /\ forall i j, r !! i = Some 1%R -> r !! j = Some 1%R -> i = j)
         (rows3 (body S0)).
Proof.
  intros A.
  destruct (softmax_with_zero_sample_rows
              no_inputs uniform_half draw_zero tem_id 1%positive
              {[1%positive := EConst A]} (EConst A) A 1 1 2)
    as (_ & S0 & Hval & Hsh & _ & Hrows).
  - apply lookup_singleton_eq.
  - reflexivity.
  - reflexivity.
  - reflexivity.
  - exists S0. auto.
Defined.

(** C7: constructing a [GaussianUnits] named "x" allocates two new objects,
    the unit and one proxy of class [GaussianPrecisionProxyUnits]; the list
    [proxy_units] of the unit holds that proxy and nothing else, the attribute
    [precision_units] is bound to it, the proxy is named "x_precision", is a
    view of the unit, and its function maps every [x] to [x ** 2 / 2.0]. *)
Theorem gaussian_units_constructor_creates_precision_proxy
    (rbm : positive) (h h' : gmap positive object) (u : positive) :
  GaussianUnits_new rbm (Some "x"%string) h = (u, h') ->
  exists (p : positive) (func : expr -> expr),
    (u ∉ dom h) /\ (p ∉ dom h) /\ p <> u
    /\ dom h' = {[u; p]} ∪ dom h
    /\ (forall o, o ∈ dom h -> h' !! o = h !! o)
    /\ class_of h' u = Some GaussianUnits
    /\ class_of h' p = Some GaussianPrecisionProxyUnits
    /\ getattr h' u "proxy_units" = ret (VList [p])
    /\ getattr h' u "precision_units" = ret (VRef p)
    /\ getattr h' p "name" = ret (VStr "x_precision")
    /\ getattr h' p "units" = ret (VRef u)
    /\ getattr h' p "func" = ret (VFunc func)
    /\ (forall x, func x = (x ^ 2 / const 2)%E)
    /\ (forall inputs uniform draw tem x X,
          eval inputs uniform draw tem x = Ok X -> well_formed X ->
          eval inputs uniform draw tem (func x) = Ok (tmap (fun r => (r ^ 2 / 2)%R) X)).
Proof.
  rewrite GaussianUnits_new_eq.
  set (u0 := fresh (dom h)).
  set (p := fresh (dom (<[u0 := Object GaussianUnits (unit_attrs rbm (Some "x"%string))]> h))).
  destruct (fresh_after_insert h (Object GaussianUnits (unit_attrs rbm (Some "x"%string))))
    as (Hu & Hp & Hne). fold u0 p in Hu, Hp, Hne.
  intros [= <- <-].
  exists p, (fun x => (x ^ 2 / const 2)%E).
  split; [exact Hu |]. split; [exact Hp |]. split; [exact Hne |].
  split; [by rewrite !dom_insert_L, (assoc_L (∪)), (comm_L (∪) {[p]} {[u0]}) |].
  split.
  { intros o Ho. rewrite !lookup_insert_ne; [done | by intros -> | by intros ->]. }
  unfold class_of, getattr.
  rewrite lookup_insert_eq, lookup_insert_ne, lookup_insert_eq by done.
  repeat split.
  intros inputs uniform draw tem x X Hx Hwf. by apply eval_square_half.
Qed.

Lemma gaussian_units_constructor_creates_precision_proxy_witness :
  let new := GaussianUnits_new 1%positive (Some "x"%string) ∅ in
  exists p : positive,
    p <> new.1
    /\ getattr new.2 new.1 "proxy_units" = ret (VList [p])
    /\ getattr new.2 new.1 "precision_units" = ret (VRef p)
    /\ getattr new.2 p "name" = ret (VStr "x_precision").
Proof.
  intros new.
  destruct (gaussian_units_constructor_creates_precision_proxy
              1%positive ∅ new.2 new.1)
    as (p & func & _ & _ & Hne & _ & _ & _ & _ & Hl & Hp & Hname & _).
  - apply surjective_pairing.
  - exists p. auto.
Defined.

(** C8: [BinaryUnits.mean_field_from_activation] returns the sigmoid of the
    unit's activation; its value is the sigmoid of the activation entry by
    entry, every entry lies between 0 and 1, the bounds included, and for
    [a = [[0.0]]] the value is [[[0.5]]]. *)
Theorem binary_mean_field_is_sigmoid
    (inputs : string -> option ndarray) (uniform : nat -> nat -> R)
    (draw : sampler -> list ndarray -> ndarray) (tem : R -> R)
    (self : positive) (vmap : gmap positive expr) (a : expr) (A : ndarray) :
  vmap !! self = Some a ->
  eval inputs uniform draw tem a = Ok A ->
  outcome (BinaryUnits_mean_field_from_activation self vmap)
    = Ok (activation_functions.sigmoid a)
  /\ value_of inputs uniform draw tem (BinaryUnits_mean_field_from_activation self vmap)
     = Ok (tmap sigmoid A)
  /\ all_entries (fun x => (0 <= x <= 1)%R) (tmap sigmoid A)
  /\ value_of inputs uniform draw tem
       (BinaryUnits_mean_field_from_activation self {[self := EConst (matrix [[0%R]])]})
     = Ok (matrix [[(1 / 2)%R]]).
Proof.
  intros Hv Ha. unfold value_of, BinaryUnits_mean_field_from_activation.
  rewrite (bind_vmap_get_some _ _ _ _ Hv). simpl outcome.
  split; [reflexivity |]. split; [| split].
  - rewrite result_bind_ok. by apply eval_sigmoid.
  - unfold all_entries, tmap. simpl. rewrite entries_nmap.
    apply Forall_forall. intros x Hx.
    apply list_elem_of_In, in_map_iff in Hx as (y & <- & _).
    apply sigmoid_range.
  - rewrite (bind_vmap_get_some _ _ (EConst (matrix [[0%R]])))
      by apply lookup_singleton_eq.
    simpl. unfold tmap, matrix. simpl. by rewrite sigmoid_0.
Qed.

Lemma binary_mean_field_is_sigmoid_witness :
  let A := matrix [[(-3)%R; 0%R]; [1%R; 40%R]] in
  value_of no_inputs uniform_half draw_zero tem_id
    (BinaryUnits_mean_field_from_activation 1%positive {[1%positive := EConst A]})
  = Ok (tmap sigmoid A)
  /\ all_entries (fun x => (0 <= x <= 1)%R) (tmap sigmoid A).
Proof.
  intros A.
  destruct (binary_mean_field_is_sigmoid
              no_inputs uniform_half draw_zero tem_id 1%positive
              {[1%positive := EConst A]} (EConst A) A)
    as (_ & Hval & Hall & _).
  - apply lookup_singleton_eq.
  - reflexivity.
  - auto.
Defined.

(** The sigmoid saturates: for [a = [[40.0]]] the mean field is [[[1.0]]],
    which is not strictly below 1. *)
Lemma binary_mean_field_reaches_one :
  value_of no_inputs uniform_half draw_zero tem_id
    (BinaryUnits_mean_field_from_activation 1%positive
       {[1%positive := EConst (matrix [[40%R]])]})
  = Ok (matrix [[1%R]])
  /\ ~ all_entries (fun x => (0 < x < 1)%R) (matrix [[1%R]]).
Proof.
  split.
  - unfold value_of, BinaryUnits_mean_field_from_activation.
    rewrite (bind_vmap_get_some _ _ (EConst (matrix [[40%R]])))
      by apply lookup_singleton_eq.
    simpl. unfold tmap, matrix. simpl. rewrite sigmoid_above_30 by lra. reflexivity.
  - unfold all_entries, matrix. simpl. intros H.
    apply Forall_cons in H as [[_ H] _]. lra.
Qed.

(** C9: a method of a class that defines it, called with a [vmap] that lacks
    the entry of the unit itself, ends in the [KeyError] for the unit, with
    one exception: [NRELUnits.sample_from_activation] ends in the [NameError]
    for [a], raised before [vmap] is subscripted.  When the entry of the unit
    is present and the entry of the proxy that the method reads is missing,
    the call ends in the [KeyError] for the proxy.  No call returns an
    activation put in the place of the missing one. *)
Theorem missing_vmap_entry_outcome
    (T_max : expr -> expr -> result expr) (h : gmap positive object)
    (self : positive) (m : method) (vmap : gmap positive expr) (ob : object) :
  h !! self = Some ob ->
  defines (cls ob) m = true ->
  (vmap !! self = None ->
   outcome (call_method T_max h self m vmap)
   = match cls ob, m with
     | NRELUnits, SampleFromActivation => Raise (NameError "a")
     | _, _ => Raise (KeyError self)
     end)
  /\ (forall attr p x,
        proxy_read (cls ob) m = Some attr ->
        attr_is_unit h self attr p ->
        vmap !! self = Some x -> vmap !! p = None ->
        outcome (call_method T_max h self m vmap) = Raise (KeyError p)).
Proof.
  intros Hob Hdef. unfold call_method. rewrite Hob. split.
  - intros Hn.
    destruct (cls ob), m; try discriminate Hdef; unfold_methods;
      first [ by rewrite (bind_vmap_get_none _ _ _ Hn) | reflexivity ].
  - intros attr p x Hattr Hat Hx Hp.
    destruct (cls ob), m; try discriminate Hattr; injection Hattr as <-;
      unfold_methods;
      rewrite (bind_vmap_get_some _ _ _ _ Hx); simpl outcome;
      rewrite (bind_getattr_unit _ _ _ _ _ Hat); simpl as_unit;
      rewrite bind_ret, (bind_vmap_get_none _ _ _ Hp); reflexivity.
Qed.

Lemma missing_vmap_entry_outcome_witness :
  let h := (plain_new NRELUnits 1%positive None ∅).2 in
  outcome (call_method T_max_unsupported h 1%positive SampleFromActivation ∅)
  = Raise (NameError "a")
  /\ outcome (call_method T_max_unsupported h 1%positive MeanFieldFromActivation ∅)
     = Raise (KeyError 1%positive).
Proof.
  intros h.
  assert (Hob : h !! 1%positive = Some (Object NRELUnits (unit_attrs 1%positive None)))
    by (vm_compute; reflexivity).
  split.
  - apply (missing_vmap_entry_outcome T_max_unsupported h 1%positive
             SampleFromActivation ∅ _ Hob eq_refl).
    reflexivity.
  - apply (missing_vmap_entry_outcome T_max_unsupported h 1%positive
             MeanFieldFromActivation ∅ _ Hob eq_refl).
    reflexivity.
Defined.

(** C10: [GammaUnits.sample_from_activation] depends on [vmap] only through
    the entry of the unit and the entry of its log proxy: on two vmaps that
    agree on these two keys it returns the same outcome and reads the same
    keys, whatever else the vmaps hold. *)
Theorem gamma_sample_from_activation_reads_two_keys
    (h : gmap positive object) (self : positive) (v1 v2 : gmap positive expr) :
  v1 !! self = v2 !! self ->
  (forall p, attr_is_unit h self "log_units" p -> v1 !! p = v2 !! p) ->
  GammaUnits_sample_from_activation h self v1
  = GammaUnits_sample_from_activation h self v2.
Proof.
  intros Hs Hp. unfold GammaUnits_sample_from_activation.
  destruct (v2 !! self) as [a1 |] eqn:E2.
  2:{ by rewrite !bind_vmap_get_none. }
  rewrite !(bind_vmap_get_some _ _ a1) by done.
  unfold getattr. destruct (h !! self) as [ob |] eqn:Eo; [| reflexivity].
  destruct (attrs ob !! "log_units") as [v |] eqn:Ea; [| reflexivity].
  rewrite !bind_ret. destruct v as [| s | p | l | f | m]; try reflexivity.
  simpl as_unit. rewrite !bind_ret.
  assert (Hk : v1 !! p = v2 !! p) by (apply Hp; by exists ob).
  destruct (v2 !! p) as [a2 |] eqn:E3.
  - by rewrite !(bind_vmap_get_some _ _ a2).
  - by rewrite !bind_vmap_get_none.
Qed.

Lemma gamma_sample_from_activation_reads_two_keys_witness :
  let h := (GammaUnits_new 1%positive None ∅).2 in
  let v1 : gmap positive expr := <[2%positive := const 1]> {[1%positive := const (-1)]} in
  let v2 : gmap positive expr := <[7%positive := const 5]> (<[3%positive := const 9]> v1) in
  GammaUnits_sample_from_activation h 1%positive v1
  = GammaUnits_sample_from_activation h 1%positive v2.
Proof.
  intros h v1 v2.
  apply (gamma_sample_from_activation_reads_two_keys h 1%positive v1 v2).
  - reflexivity.
  - intros p (ob & Hob & Hat).
    assert (Hp : p = 2%positive).
    { vm_compute in Hob. injection Hob as <-. vm_compute in Hat. by injection Hat. }
    subst p. reflexivity.
Defined.

(** * Further properties *)

Import Failing.

(** ** Constructors of the units with a proxy *)

(** What [__init__] of a unit class with one proxy leaves on the heap. *)
Lemma new_with_proxy_post c pc attr func rbm name pname (h : gmap positive object) :
  let u := fresh (dom h) in
  let p := fresh (dom (<[u := Object c (unit_attrs rbm name)]> h)) in
  let h' := <[p := Object pc (proxy_attrs rbm pname u func)]>
              (<[u := Object c (<["proxy_units" := VList [p]]>
                                  (<[attr := VRef p]> (unit_attrs rbm name)))]> h) in
  attr <> "proxy_units"%string ->
  (u ∉ dom h) /\ (p ∉ dom h) /\ p <> u
  /\ dom h' = {[u; p]} ∪ dom h
  /\ (forall o, o ∈ dom h -> h' !! o = h !! o)
  /\ class_of h' u = Some c
  /\ class_of h' p = Some pc
  /\ getattr h' u "proxy_units" = ret (VList [p])
  /\ getattr h' u attr = ret (VRef p)
  /\ getattr h' p "name" = ret (of_name pname)
  /\ getattr h' p "units" = ret (VRef u)
  /\ getattr h' p "func" = ret (VFunc func).
Proof.
  intros u p h' Hattr.
  destruct (fresh_after_insert h (Object c (unit_attrs rbm name))) as (Hu & Hp & Hne).
  fold u p in Hu, Hp, Hne.
  split; [exact Hu |]. split; [exact Hp |]. split; [exact Hne |].
  split; [unfold h'; by rewrite !dom_insert_L, (assoc_L (∪)), (comm_L (∪) {[p]} {[u]}) |].
  split.
  { intros o Ho. unfold h'.
    rewrite !lookup_insert_ne; [done | | ]; intros Heq; [apply Hu | apply Hp]; by rewrite Heq. }
  unfold class_of, getattr, h'.
  rewrite lookup_insert_eq, lookup_insert_ne, lookup_insert_eq by done. simpl.
  rewrite (lookup_insert_ne _ "proxy_units" attr) by congruence.
  rewrite !lookup_insert_eq.
  repeat split.
Qed.

Lemma LearntPrecisionGaussianUnits_new_eq rbm name (h : gmap positive object) :
  let u := fresh (dom h) in
  let p := fresh (dom (<[u := Object LearntPrecisionGaussianUnits (unit_attrs rbm name)]> h)) in
  LearntPrecisionGaussianUnits_new rbm name h
  = (u, <[p := Object LearntPrecisionGaussianProxyUnits
                  (proxy_attrs rbm (proxy_name_of name "_precision") u
                     (fun x => (x ^ 2)%E))]>
          (<[u := Object LearntPrecisionGaussianUnits
                    (<["proxy_units" := VList [p]]>
                       (<["precision_units" := VRef p]> (unit_attrs rbm name)))]> h)).
Proof.
  intros u p. unfold LearntPrecisionGaussianUnits_new. rewrite construct_eq. fold u. f_equal.
  apply (init_with_proxy_eq LearntPrecisionGaussianUnits LearntPrecisionGaussianProxyUnits).
Qed.

Lemma GammaUnits_new_eq rbm name (h : gmap positive object) :
  let u := fresh (dom h) in
  let p := fresh (dom (<[u := Object GammaUnits (unit_attrs rbm name)]> h)) in
  GammaUnits_new rbm name h
  = (u, <[p := Object GammaLogProxyUnits
                  (proxy_attrs rbm (proxy_name_of name "_log") u (fun x => T.log x))]>
          (<[u := Object GammaUnits
                    (<["proxy_units" := VList [p]]>
                       (<["log_units" := VRef p]> (unit_attrs rbm name)))]> h)).
Proof.
  intros u p. unfold GammaUnits_new. rewrite construct_eq. fold u. f_equal.
  apply (init_with_proxy_eq GammaUnits GammaLogProxyUnits).
Qed.


(** X1: [GaussianUnits(rbm, name)] for any name, also none: the proxy is
    named [name + "_precision"], and has no name when the unit has none; the
    unit keeps its own name, and the values of the proxy's function are never
    negative. *)
Theorem gaussian_units_constructor_names_proxy
    (rbm : positive) (name : option string) (h h' : gmap positive object) (u : positive) :
  GaussianUnits_new rbm name h = (u, h') ->
  exists p : positive,
    p <> u
    /\ getattr h' u "precision_units" = ret (VRef p)
    /\ getattr h' u "name" = ret (of_name name)
    /\ getattr h' p "name" = ret (of_name (proxy_name_of name "_precision"))
    /\ (name = None -> getattr h' p "name" = ret VNone)
    /\ (forall n, name = Some n -> getattr h' p "name" = ret (VStr (n +:+ "_precision")))
    /\ (forall inputs uniform draw tem func x X,
          getattr h' p "func" = ret (VFunc func) ->
          eval inputs uniform draw tem x = Ok X -> well_formed X ->
          exists Y, eval inputs uniform draw tem (func x) = Ok Y
                    /\ all_entries (fun r => (0 <= r)%R) Y).
Proof.
  rewrite GaussianUnits_new_eq.
  set (u0 := fresh (dom h)).
  set (p := fresh (dom (<[u0 := Object GaussianUnits (unit_attrs rbm name)]> h))).
  intros [= <- <-].
  destruct (new_with_proxy_post GaussianUnits GaussianPrecisionProxyUnits
              "precision_units" (fun x => (x ^ 2 / const 2)%E) rbm name
              (proxy_name_of name "_precision") h ltac:(done))
    as (_ & _ & Hne & _ & _ & _ & _ & _ & Hat & Hname & _ & Hfunc).
  fold u0 p in Hne, Hat, Hname, Hfunc.
  exists p. split; [exact Hne |]. split; [exact Hat |]. split.
  { unfold getattr. by rewrite lookup_insert_ne, lookup_insert_eq. }
  split; [exact Hname |]. split; [by intros -> |]. split; [by intros n -> |].
  intros inputs uniform draw tem func x X Hf Hx Hwf.
  rewrite Hfunc in Hf. injection Hf as <-.
  eexists. split; [by apply eval_square_half |].
  unfold all_entries, tmap. simpl. rewrite entries_nmap.
  apply Forall_forall. intros r Hr.
  apply list_elem_of_In, in_map_iff in Hr as (y & <- & _). nra.
Qed.

Lemma gaussian_units_constructor_names_proxy_witness :
  let new := GaussianUnits_new 1%positive None ∅ in
  exists p : positive, p <> new.1 /\ getattr new.2 p "name" = ret VNone.
Proof.
  intros new.
  destruct (gaussian_units_constructor_names_proxy 1%positive None ∅ new.2 new.1)
    as (p & Hne & _ & _ & _ & Hnone & _).
  - apply surjective_pairing.
  - exists p. auto.
Defined.

(** X2: [LearntPrecisionGaussianUnits(rbm, name)] allocates the unit and one
    [LearntPrecisionGaussianProxyUnits], bound to [precision_units] and alone
    in [proxy_units]; the proxy is a view of the unit, is named
    [name + "_precision"] (has no name when the unit has none), and its
    function is the square, not halved as for [GaussianUnits]. *)
Theorem learnt_precision_gaussian_units_constructor
    (rbm : positive) (name : option string) (h h' : gmap positive object) (u : positive) :
  LearntPrecisionGaussianUnits_new rbm name h = (u, h') ->
  exists (p : positive) (func : expr -> expr),
    (u ∉ dom h) /\ (p ∉ dom h) /\ p <> u
    /\ dom h' = {[u; p]} ∪ dom h
    /\ (forall o, o ∈ dom h -> h' !! o = h !! o)
    /\ class_of h' u = Some LearntPrecisionGaussianUnits
    /\ class_of h' p = Some LearntPrecisionGaussianProxyUnits
    /\ getattr h' u "proxy_units" = ret (VList [p])
    /\ getattr h' u "precision_units" = ret (VRef p)
    /\ getattr h' p "name" = ret (of_name (proxy_name_of name "_precision"))
    /\ getattr h' p "units" = ret (VRef u)
    /\ getattr h' p "func" = ret (VFunc func)
    /\ (forall inputs uniform draw tem x X,
          eval inputs uniform draw tem x = Ok X ->
          eval inputs uniform draw tem (func x) = Ok (tmap (fun r => (r * r)%R) X)).
Proof.
  rewrite LearntPrecisionGaussianUnits_new_eq.
  set (u0 := fresh (dom h)).
  set (p := fresh (dom (<[u0 := Object LearntPrecisionGaussianUnits (unit_attrs rbm name)]> h))).
  intros [= <- <-].
  pose proof (new_with_proxy_post LearntPrecisionGaussianUnits
                LearntPrecisionGaussianProxyUnits "precision_units"
                (fun x => (x ^ 2)%E) rbm name (proxy_name_of name "_precision") h
                ltac:(done)) as Hpost.
  fold u0 p in Hpost.
  exists p, (fun x => (x ^ 2)%E).
  destruct Hpost as (H1 & H2 & H3 & H4 & H5 & H6 & H7 & H8 & H9 & H10 & H11 & H12).
  repeat (split; [assumption |]).
  intros inputs uniform draw tem x X Hx. simpl. rewrite Hx. simpl. f_equal.
  unfold tmap. f_equal. apply nmap_ext. intros r. simpl. lra.
Qed.

Lemma learnt_precision_gaussian_units_constructor_witness :
  let new := LearntPrecisionGaussianUnits_new 1%positive (Some "v"%string) ∅ in
  exists p : positive,
    getattr new.2 new.1 "precision_units" = ret (VRef p)
    /\ getattr new.2 p "name" = ret (VStr "v_precision").
Proof.
  intros new.
  destruct (learnt_precision_gaussian_units_constructor
              1%positive (Some "v"%string) ∅ new.2 new.1)
    as (p & func & _ & _ & _ & _ & _ & _ & _ & _ & Hat & Hname & _).
  - apply surjective_pairing.
  - exists p. auto.
Defined.

(** X3: [GammaUnits(rbm, name)] allocates the unit and one
    [GammaLogProxyUnits], bound to [log_units] and alone in [proxy_units];
    the proxy is a view of the unit, is named [name + "_log"] (has no name
    when the unit has none), and its function is the logarithm: on an array
    of positive entries its value is the logarithm entry by entry. *)
Theorem gamma_units_constructor
    (rbm : positive) (name : option string) (h h' : gmap positive object) (u : positive) :
  GammaUnits_new rbm name h = (u, h') ->
  exists (p : positive) (func : expr -> expr),
    (u ∉ dom h) /\ (p ∉ dom h) /\ p <> u
    /\ dom h' = {[u; p]} ∪ dom h
    /\ (forall o, o ∈ dom h -> h' !! o = h !! o)
    /\ class_of h' u = Some GammaUnits
    /\ class_of h' p = Some GammaLogProxyUnits
    /\ getattr h' u "proxy_units" = ret (VList [p])
    /\ getattr h' u "log_units" = ret (VRef p)
    /\ getattr h' p "name" = ret (of_name (proxy_name_of name "_log"))
    /\ getattr h' p "units" = ret (VRef u)
    /\ getattr h' p "func" = ret (VFunc func)
    /\ (forall x, func x = T.log x)
    /\ (forall inputs uniform draw tem x X,
          eval inputs uniform draw tem x = Ok X ->
          all_entries (fun r => (0 < r)%R) X ->
          eval inputs uniform draw tem (func x) = Ok (tmap ln X)).
Proof.
  rewrite GammaUnits_new_eq.
  set (u0 := fresh (dom h)).
  set (p := fresh (dom (<[u0 := Object GammaUnits (unit_attrs rbm name)]> h))).
  intros [= <- <-].
  pose proof (new_with_proxy_post GammaUnits GammaLogProxyUnits "log_units"
                (fun x => T.log x) rbm name (proxy_name_of name "_log") h
                ltac:(done)) as Hpost.
  fold u0 p in Hpost.
  exists p, (fun x => T.log x).
  destruct Hpost as (H1 & H2 & H3 & H4 & H5 & H6 & H7 & H8 & H9 & H10 & H11 & H12).
  repeat (split; [assumption |]).
  split; [reflexivity |].
  intros inputs uniform draw tem x X Hx _. simpl. by rewrite Hx.
Qed.

Lemma gamma_units_constructor_witness :
  let new := GammaUnits_new 1%positive (Some "g"%string) ∅ in
  exists (p : positive) (func : expr -> expr),
    getattr new.2 new.1 "log_units" = ret (VRef p)
    /\ getattr new.2 p "name" = ret (VStr "g_log")
    /\ eval no_inputs uniform_half draw_zero tem_id (func (EConst (matrix [[1%R; 2%R]])))
       = Ok (tmap ln (matrix [[1%R; 2%R]])).
Proof.
  intros new.
  destruct (gamma_units_constructor 1%positive (Some "g"%string) ∅ new.2 new.1)
    as (p & func & _ & _ & _ & _ & _ & _ & _ & _ & Hat & Hname & _ & _ & _ & Hval).
  - apply surjective_pairing.
  - exists p, func. split; [exact Hat |]. split; [exact Hname |].
    apply Hval; [reflexivity |].
    unfold all_entries, matrix. simpl. repeat constructor; lra.
Defined.



(** ** The [sample] shortcuts *)

Lemma outcome_bind_raise {A B} (m : M A) (K : A -> M B) e :
  outcome m = Raise e -> outcome (bind m K) = Raise e.
Proof. unfold outcome, bind. by intros ->. Qed.

(** X5: [LearntPrecisionGaussianUnits.sample] resolves the activation of the
    unit and of its precision proxy through the model and returns what
    [sample_from_activation] returns for the vmap of these two entries: the
    Gaussian sampler at mean [a1 / (-2 * a2)] and variance [1 / (-2 * a2)].
    The entries of the vmap it was given are not looked up: the result is the
    same on the empty vmap when the model resolves the same activations. *)
Theorem learnt_precision_gaussian_sample_delegates
    (activation : gmap positive object -> positive -> gmap positive expr -> M expr)
    (h : gmap positive object) (self p : positive) (vmap : gmap positive expr)
    (a1 a2 : expr) :
  attr_is_unit h self "precision_units" p -> self <> p ->
  outcome (activation h self vmap) = Ok a1 ->
  outcome (activation h p vmap) = Ok a2 ->
  let inline : gmap positive expr := <[p := a2]> {[self := a1]} in
  outcome (LearntPrecisionGaussianUnits_sample activation h self vmap)
    = outcome (LearntPrecisionGaussianUnits_sample_from_activation h self inline)
  /\ outcome (LearntPrecisionGaussianUnits_sample activation h self vmap)
     = Ok (samplers.gaussian (a1 / (const (-2) * a2)) (const 1 / (const (-2) * a2)))
  /\ (outcome (activation h self ∅) = Ok a1 ->
      outcome (activation h p ∅) = Ok a2 ->
      outcome (LearntPrecisionGaussianUnits_sample activation h self ∅)
      = outcome (LearntPrecisionGaussianUnits_sample activation h self vmap)).
Proof.
  intros Hat Hne H1 H2 inline.
  assert (Hd : forall v, outcome (activation h self v) = Ok a1 ->
                         outcome (activation h p v) = Ok a2 ->
             outcome (LearntPrecisionGaussianUnits_sample activation h self v)
             = outcome (LearntPrecisionGaussianUnits_sample_from_activation h self inline)).
  { intros v G1 G2. unfold LearntPrecisionGaussianUnits_sample.
    rewrite (outcome_bind_ok _ _ _ G1), (bind_getattr_unit _ _ _ _ _ Hat).
    simpl as_unit. rewrite bind_ret, (outcome_bind_ok _ _ _ G2).
    rewrite (bind_getattr_unit _ _ _ _ _ Hat). simpl as_unit. by rewrite bind_ret. }
  assert (Hs : outcome (LearntPrecisionGaussianUnits_sample_from_activation h self inline)
     = Ok (samplers.gaussian (a1 / (const (-2) * a2)) (const 1 / (const (-2) * a2)))).
  { unfold LearntPrecisionGaussianUnits_sample_from_activation, inline.
    rewrite (bind_vmap_get_some _ _ a1)
      by (rewrite lookup_insert_ne by done; apply lookup_singleton_eq).
    simpl outcome. rewrite (bind_getattr_unit _ _ _ _ _ Hat). simpl as_unit.
    rewrite bind_ret, (bind_vmap_get_some _ _ a2) by apply lookup_insert_eq.
    reflexivity. }
  split; [by apply Hd |]. split; [by rewrite Hd |].
  intros G1 G2. by rewrite !Hd.
Qed.

Lemma learnt_precision_gaussian_sample_delegates_witness :
  let h := (LearntPrecisionGaussianUnits_new 1%positive None ∅).2 in
  outcome (LearntPrecisionGaussianUnits_sample activation_example h 1%positive ∅)
  = Ok (samplers.gaussian (const (-1) / (const (-2) * const 0))
          (const 1 / (const (-2) * const 0))).
Proof.
  intros h.
  destruct (learnt_precision_gaussian_sample_delegates
              activation_example h 1%positive 2%positive ∅ (const (-1)) (const 0))
    as (_ & Hg & _).
  - eexists. split; vm_compute; reflexivity.
  - discriminate.
  - reflexivity.
  - reflexivity.
  - exact Hg.
Defined.

(** X6: the [sample] shortcuts of [GammaUnits] and
    [LearntPrecisionGaussianUnits] hand on the failure of the model: when the
    activation of the unit cannot be resolved, or that of its proxy, [sample]
    raises the same exception and draws nothing. *)
Theorem sample_shortcuts_propagate_activation_failure
    (activation : gmap positive object -> positive -> gmap positive expr -> M expr)
    (h : gmap positive object) (self : positive) (vmap : gmap positive expr) (e : exn) :
  (outcome (activation h self vmap) = Raise e ->
   outcome (GammaUnits_sample activation h self vmap) = Raise e
   /\ outcome (LearntPrecisionGaussianUnits_sample activation h self vmap) = Raise e)
  /\ (forall a1 p,
        outcome (activation h self vmap) = Ok a1 ->
        outcome (activation h p vmap) = Raise e ->
        (attr_is_unit h self "log_units" p ->
         outcome (GammaUnits_sample activation h self vmap) = Raise e)
        /\ (attr_is_unit h self "precision_units" p ->
            outcome (LearntPrecisionGaussianUnits_sample activation h self vmap) = Raise e)).
Proof.
  split.
  - intros He. split.
    + unfold GammaUnits_sample. by apply outcome_bind_raise.
    + unfold LearntPrecisionGaussianUnits_sample. by apply outcome_bind_raise.
  - intros a1 p H1 He. split; intros Hat.
    + unfold GammaUnits_sample.
      rewrite (outcome_bind_ok _ _ _ H1), (bind_getattr_unit _ _ _ _ _ Hat).
      simpl as_unit. rewrite bind_ret. by apply outcome_bind_raise.
    + unfold LearntPrecisionGaussianUnits_sample.
      rewrite (outcome_bind_ok _ _ _ H1), (bind_getattr_unit _ _ _ _ _ Hat).
      simpl as_unit. rewrite bind_ret. by apply outcome_bind_raise.
Qed.

(** ** Pointwise combination of two bodies of one shape *)

Lemma nzip_same_shape (P : nest -> nest -> Prop) :
  (forall x y, P (Leaf x) (Leaf y)) ->
  (forall l1 l2, Forall2 P l1 l2 -> P (Arr l1) (Arr l2)) ->
  forall t1 sh t2, conforms sh t1 = true -> conforms sh t2 = true -> P t1 t2.
Proof.
  intros Hleaf Harr.
  induction t1 as [x | l1 IH] using nest_ind_forall; intros sh t2 H1 H2.
  - destruct sh; [| discriminate]. apply conforms_leaf in H2 as [y ->]. apply Hleaf.
  - destruct sh as [| n sh]; [discriminate |].
    destruct t2 as [y | l2]; [discriminate |].
    apply conforms_arr in H1 as [L1 A1]. apply conforms_arr in H2 as [L2 A2].
    apply Harr. subst n. clear Harr Hleaf.
    revert l2 L2 A2. induction IH as [| c l' Hc _ IHl]; intros l2 L2 A2.
    + destruct l2; [constructor | discriminate].
    + destruct l2 as [| c2 l2]; [discriminate |].
      apply Forall_cons in A1 as [C1 A1]. apply Forall_cons in A2 as [C2 A2].
      constructor; [by eapply Hc | apply IHl; [done | simpl in L2; lia | done]].
Qed.

Lemma nmap_nzip g f t1 sh t2 :
  conforms sh t1 = true -> conforms sh t2 = true ->
  nmap g (nzip f t1 t2) = nzip (fun x y => g (f x y)) t1 t2.
Proof.
  revert t1 sh t2.
  apply (nzip_same_shape (fun t1 t2 =>
           nmap g (nzip f t1 t2) = nzip (fun x y => g (f x y)) t1 t2)).
  - reflexivity.
  - intros l1 l2 H. simpl. f_equal.
    induction H as [| c1 c2 l1 l2 Hc _ IH]; simpl; [reflexivity | by rewrite Hc, IH].
Qed.

Lemma nzip_swap f t1 sh t2 :
  conforms sh t1 = true -> conforms sh t2 = true ->
  nzip f t2 t1 = nzip (fun x y => f y x) t1 t2.
Proof.
  revert t1 sh t2.
  apply (nzip_same_shape (fun t1 t2 => nzip f t2 t1 = nzip (fun x y => f y x) t1 t2)).
  - reflexivity.
  - intros l1 l2 H. simpl. f_equal.
    induction H as [| c1 c2 l1 l2 Hc _ IH]; simpl; [reflexivity | by rewrite Hc, IH].
Qed.

Lemma nzip_ext f g t1 t2 :
  (forall x y, f x y = g x y) -> nzip f t1 t2 = nzip g t1 t2.
Proof.
  intros Hfg. revert t2.
  induction t1 as [x | l1 IH] using nest_ind_forall; intros [y | l2]; simpl;
    try reflexivity.
  - by rewrite Hfg.
  - f_equal. revert l2. induction IH as [| c l' Hc _ IHl]; intros [| c2 l2]; simpl;
      try reflexivity.
    by rewrite Hc, IHl.
Qed.

Lemma conforms_nzip f t1 sh t2 :
  conforms sh t1 = true -> conforms sh t2 = true ->
  conforms sh (nzip f t1 t2) = true.
Proof.
  revert sh t2.
  induction t1 as [x | l1 IH] using nest_ind_forall; intros sh t2 H1 H2.
  - destruct sh; [| discriminate]. by apply conforms_leaf in H2 as [y ->].
  - destruct sh as [| n sh]; [discriminate |].
    destruct t2 as [y | l2]; [discriminate |].
    apply conforms_arr in H1 as [L1 A1]. apply conforms_arr in H2 as [L2 A2].
    simpl nzip. apply conforms_arr. subst n.
    revert l2 L2 A2. induction IH as [| c l' Hc _ IHl]; intros l2 L2 A2.
    + destruct l2; [split; [reflexivity | constructor] | discriminate].
    + destruct l2 as [| c2 l2]; [discriminate |].
      apply Forall_cons in A1 as [C1 A1]. apply Forall_cons in A2 as [C2 A2].
      destruct (IHl A1 l2 ltac:(simpl in L2; lia) A2) as [Hlen Hall].
      split; [simpl; by rewrite Hlen |].
      constructor; [by apply Hc | exact Hall].
Qed.

(** ** Sigmoid and softplus *)

Lemma sum_neg_softplus_nonpos l :
  (sum_list (map (fun x => (- softplus x)%R) l) <= 0)%R.
Proof.
  induction l as [| x l IH]; unfold sum_list in *; simpl; [lra |].
  pose proof (softplus_nonneg x). lra.
Qed.

Lemma entries_vector xs : entries (body (vector xs)) = xs.
Proof.
  unfold vector. simpl. induction xs as [| x xs IH]; simpl; [reflexivity | by rewrite IH].
Qed.

(** The sums of [- softplus] over the minibatch slices are never positive. *)
Lemma slice_sums_nonpos a :
  let F := vector (map (fun c => sum_list (map (fun x => (- softplus x)%R) (entries c)))
                       (minibatch_slices a)) in
  all_entries (fun v => (v <= 0)%R) F.
Proof.
  intros F. unfold all_entries, F. rewrite entries_vector.
  apply Forall_forall. intros v Hv.
  apply list_elem_of_In, in_map_iff in Hv as (c & <- & _).
  apply sum_neg_softplus_nonpos.
Qed.

(** ** [BinaryUnits] and [SymmetricBinaryUnits] *)

(** X7: the three methods of [SymmetricBinaryUnits] return what the methods
    of [BinaryUnits] return for the activation [x - y], where [x] is the
    activation of the unit and [y] that of its flipped proxy. *)
Theorem symmetric_methods_are_binary_methods_on_the_difference
    (h : gmap positive object) (self f : positive) (vmap : gmap positive expr)
    (x y : expr) :
  attr_is_unit h self "flipped_units" f ->
  vmap !! self = Some x -> vmap !! f = Some y ->
  let logit : gmap positive expr := {[self := (x - y)%E]} in
  outcome (SymmetricBinaryUnits_sample_from_activation h self vmap)
    = outcome (BinaryUnits_sample_from_activation self logit)
  /\ outcome (SymmetricBinaryUnits_mean_field_from_activation h self vmap)
     = outcome (BinaryUnits_mean_field_from_activation self logit)
  /\ outcome (SymmetricBinaryUnits_free_energy_term_from_activation h self vmap)
     = outcome (BinaryUnits_free_energy_term_from_activation self logit).
Proof.
  intros Hat Hx Hy logit.
  unfold SymmetricBinaryUnits_sample_from_activation,
    SymmetricBinaryUnits_mean_field_from_activation,
    SymmetricBinaryUnits_free_energy_term_from_activation,
    BinaryUnits_sample_from_activation, BinaryUnits_mean_field_from_activation,
    BinaryUnits_free_energy_term_from_activation, logit.
  rewrite !(bind_vmap_get_some ({[self := (x - y)%E]} : gmap positive expr) self
              (x - y)%E) by apply lookup_singleton_eq.
  rewrite !(bind_vmap_get_some vmap self x) by done. simpl outcome.
  rewrite !(bind_getattr_unit _ _ _ _ _ Hat). simpl as_unit.
  rewrite !bind_ret, !(bind_vmap_get_some _ _ y) by done.
  repeat split.
Qed.

Lemma symmetric_methods_are_binary_methods_on_the_difference_witness :
  let h := (SymmetricBinaryUnits_new 1%positive None ∅).2 in
  let vmap : gmap positive expr := <[2%positive := EVar "y" 2]> {[1%positive := EVar "x" 2]} in
  outcome (SymmetricBinaryUnits_free_energy_term_from_activation h 1%positive vmap)
  = outcome (BinaryUnits_free_energy_term_from_activation 1%positive
               {[1%positive := (EVar "x" 2 - EVar "y" 2)%E]}).
Proof.
  intros h vmap.
  apply (symmetric_methods_are_binary_methods_on_the_difference
           h 1%positive 2%positive vmap (EVar "x" 2) (EVar "y" 2)).
  - eexists. split; vm_compute; reflexivity.
  - reflexivity.
  - reflexivity.
Defined.

(** X8: exchanging the activation of a [SymmetricBinaryUnits] instance with
    that of its flipped proxy negates the logit of the mean field: with [d]
    the difference of the two activations at an entry, the mean field is the
    sigmoid of [d] before the exchange and the sigmoid of [- d] after it. *)
Theorem symmetric_mean_field_swap_negates_logit
    (inputs : string -> option ndarray) (uniform : nat -> nat -> R)
    (draw : sampler -> list ndarray -> ndarray) (tem : R -> R)
    (h : gmap positive object) (self f : positive) (x y : expr) (X Y : ndarray) :
  attr_is_unit h self "flipped_units" f -> self <> f ->
  eval inputs uniform draw tem x = Ok X -> eval inputs uniform draw tem y = Ok Y ->
  well_formed X -> well_formed Y -> shape X = shape Y ->
  let D := NDArray (shape X) (nzip Rminus (body X) (body Y)) in
  value_of inputs uniform draw tem
    (SymmetricBinaryUnits_mean_field_from_activation h self (<[f := y]> {[self := x]}))
  = Ok (tmap sigmoid D)
  /\ value_of inputs uniform draw tem
       (SymmetricBinaryUnits_mean_field_from_activation h self (<[f := x]> {[self := y]}))
     = Ok (tmap (fun d => sigmoid (- d)) D).
Proof.
  intros Hat Hne Ex Ey Wx Wy Hsh D.
  assert (Hcall : forall a b,
    outcome (SymmetricBinaryUnits_mean_field_from_activation h self
               (<[f := b]> {[self := a]}))
    = Ok (activation_functions.sigmoid (a - b)%E)).
  { intros a b. unfold SymmetricBinaryUnits_mean_field_from_activation.
    rewrite (bind_vmap_get_some _ _ a)
      by (rewrite lookup_insert_ne by done; apply lookup_singleton_eq).
    simpl outcome. rewrite (bind_getattr_unit _ _ _ _ _ Hat). simpl as_unit.
    rewrite bind_ret, (bind_vmap_get_some _ _ b) by apply lookup_insert_eq.
    reflexivity. }
  unfold value_of. rewrite !Hcall, !result_bind_ok. simpl. rewrite Ex, Ey. simpl.
  rewrite (elemwise2_same_shape _ X Y), (elemwise2_same_shape _ Y X) by done. simpl.
  split; [reflexivity |].
  assert (Cx : conforms (shape X) (body X) = true) by exact Wx.
  assert (Cy : conforms (shape X) (body Y) = true) by (rewrite Hsh; exact Wy).
  f_equal. unfold tmap, D. simpl. rewrite <- Hsh. f_equal.
  rewrite (nmap_nzip _ _ (body Y) (shape X) (body X) Cy Cx).
  rewrite (nmap_nzip _ _ (body X) (shape X) (body Y) Cx Cy).
  rewrite (nzip_swap _ (body X) (shape X) (body Y) Cx Cy).
  apply nzip_ext. intros a b. f_equal. lra.
Qed.

Lemma symmetric_mean_field_swap_negates_logit_witness :
  let h := (SymmetricBinaryUnits_new 1%positive None ∅).2 in
  let x := EConst (matrix [[2%R]]) in
  let y := EConst (matrix [[(-1)%R]]) in
  value_of no_inputs uniform_half draw_zero tem_id
    (SymmetricBinaryUnits_mean_field_from_activation h 1%positive
       (<[2%positive := y]> {[1%positive := x]}))
  = Ok (matrix [[sigmoid (2 - -1)]])
  /\ value_of no_inputs uniform_half draw_zero tem_id
       (SymmetricBinaryUnits_mean_field_from_activation h 1%positive
          (<[2%positive := x]> {[1%positive := y]}))
     = Ok (matrix [[sigmoid (- (2 - -1))]]).
Proof.
  intros h x y.
  apply (symmetric_mean_field_swap_negates_logit
           no_inputs uniform_half draw_zero tem_id h 1%positive 2%positive x y
           (matrix [[2%R]]) (matrix [[(-1)%R]])).
  - eexists. split; vm_compute; reflexivity.
  - discriminate.
  - reflexivity.
  - reflexivity.
  - reflexivity.
  - reflexivity.
  - reflexivity.
Defined.

(** X9: the free energy term of [BinaryUnits] is never positive: for an
    activation of rank at least 2 its value keeps the minibatch axis only and
    every entry of it is at most 0. *)
Theorem binary_free_energy_term_is_not_positive
    (inputs : string -> option ndarray) (uniform : nat -> nat -> R)
    (draw : sampler -> list ndarray -> ndarray) (tem : R -> R)
    (self : positive) (vmap : gmap positive expr) (a : expr) (A : ndarray) :
  vmap !! self = Some a ->
  eval inputs uniform draw tem a = Ok A ->
  well_formed A -> rank A = ndim a -> 2 <= ndim a ->
  exists F : ndarray,
    value_of inputs uniform draw tem
      (BinaryUnits_free_energy_term_from_activation self vmap) = Ok F
    /\ shape F = take 1 (shape A)
    /\ all_entries (fun v => (v <= 0)%R) F.
Proof.
  intros Hv Ha Hwf Hr Hn. unfold value_of, BinaryUnits_free_energy_term_from_activation.
  rewrite (bind_vmap_get_some _ _ _ _ Hv). simpl outcome. rewrite result_bind_ok.
  pose proof (eval_sum_neg_softplus inputs uniform draw tem a A Ha Hwf Hr
                ltac:(lia)) as E.
  eexists. split; [exact E |].
  split; [| apply slice_sums_nonpos].
  unfold vector. simpl. rewrite length_map.
  destruct A as [sh t]. unfold well_formed, rank, minibatch_slices in *. simpl in *.
  destruct sh as [| n sh]; [simpl in Hr; lia |].
  destruct t as [r | l]; [discriminate |].
  apply conforms_arr in Hwf as [Hlen _]. simpl. by rewrite Hlen.
Qed.

Lemma binary_free_energy_term_is_not_positive_witness :
  let A := matrix [[1%R; 2%R]; [(-40)%R; 4%R]] in
  exists F : ndarray,
    value_of no_inputs uniform_half draw_zero tem_id
      (BinaryUnits_free_energy_term_from_activation 1%positive {[1%positive := EConst A]})
    = Ok F
    /\ shape F = [2]
    /\ all_entries (fun v => (v <= 0)%R) F.
Proof.
  intros A.
  destruct (binary_free_energy_term_is_not_positive
              no_inputs uniform_half draw_zero tem_id 1%positive
              {[1%positive := EConst A]} (EConst A) A)
    as (F & Hval & Hsh & Hneg).
  - apply lookup_singleton_eq.
  - reflexivity.
  - reflexivity.
  - reflexivity.
  - unfold ndim, rank, A, matrix. simpl. lia.
  - exists F. auto.
Defined.

(** X10: the free energy term of [SymmetricBinaryUnits], for activations
    [x] of the unit and [y] of its flipped proxy that have one shape of rank at
    least 2: its value has one entry per minibatch example, the sum of
    [- softplus (x - y)] over the entries of that example, and no entry is
    positive. *)
Theorem symmetric_free_energy_term_value
    (inputs : string -> option ndarray) (uniform : nat -> nat -> R)
    (draw : sampler -> list ndarray -> ndarray) (tem : R -> R)
    (h : gmap positive object) (self f : positive) (vmap : gmap positive expr)
    (x y : expr) (X Y : ndarray) :
  attr_is_unit h self "flipped_units" f ->
  vmap !! self = Some x -> vmap !! f = Some y ->
  eval inputs uniform draw tem x = Ok X -> eval inputs uniform draw tem y = Ok Y ->
  well_formed X -> well_formed Y -> shape X = shape Y ->
  rank X = ndim x -> rank Y = ndim y -> 2 <= ndim x ->
  let D := NDArray (shape X) (nzip Rminus (body X) (body Y)) in
  let F := vector (map (fun c => sum_list (map (fun d => (- softplus d)%R) (entries c)))
                       (minibatch_slices D)) in
  value_of inputs uniform draw tem
    (SymmetricBinaryUnits_free_energy_term_from_activation h self vmap) = Ok F
  /\ all_entries (fun v => (v <= 0)%R) F.
Proof.
  intros Hat Hx Hy Ex Ey Wx Wy Hsh Rx Ry Hn D F.
  assert (ED : eval inputs uniform draw tem (x - y)%E = Ok D).
  { simpl. rewrite Ex, Ey. simpl. by apply elemwise2_same_shape. }
  assert (WD : well_formed D).
  { unfold well_formed, D. simpl. apply conforms_nzip; [exact Wx |].
    rewrite Hsh. exact Wy. }
  assert (RD : rank D = ndim (x - y)%E).
  { unfold rank, D. simpl. unfold rank in Rx, Ry. rewrite <- Rx, <- Ry, Hsh. lia. }
  assert (ND : 2 <= ndim (x - y)%E) by (simpl; lia).
  split.
  - unfold value_of, SymmetricBinaryUnits_free_energy_term_from_activation.
    rewrite (bind_vmap_get_some _ _ _ _ Hx). simpl outcome.
    rewrite (bind_getattr_unit _ _ _ _ _ Hat). simpl as_unit.
    rewrite bind_ret, (bind_vmap_get_some _ _ _ _ Hy).
    apply (eval_sum_neg_softplus inputs uniform draw tem (x - y)%E D ED WD RD). lia.
  - apply slice_sums_nonpos.
Qed.

Lemma symmetric_free_energy_term_value_witness :
  let h := (SymmetricBinaryUnits_new 1%positive None ∅).2 in
  let X := matrix [[1%R; 2%R]] in
  let Y := matrix [[0%R; 5%R]] in
  value_of no_inputs uniform_half draw_zero tem_id
    (SymmetricBinaryUnits_free_energy_term_from_activation h 1%positive
       (<[2%positive := EConst Y]> {[1%positive := EConst X]}))
  = Ok (vector [(- softplus (1 - 0) + (- softplus (2 - 5) + 0))%R]).
Proof.
  intros h X Y.
  apply (symmetric_free_energy_term_value
           no_inputs uniform_half draw_zero tem_id h 1%positive 2%positive
           (<[2%positive := EConst Y]> {[1%positive := EConst X]})
           (EConst X) (EConst Y) X Y).
  - eexists. split; vm_compute; reflexivity.
  - reflexivity.
  - reflexivity.
  - reflexivity.
  - reflexivity.
  - reflexivity.
  - reflexivity.
  - reflexivity.
  - reflexivity.
  - reflexivity.
  - unfold ndim, rank, X, matrix. simpl. lia.
Defined.

(** X11: [BinaryUnits.sample_from_activation] draws from the Bernoulli
    sampler with the mean field as its parameter: the expression handed to the
    sampler is the one [mean_field_from_activation] returns, and every entry of
    its value is a probability: it lies between 0 and 1, the bounds
    included. *)
Theorem binary_sample_parameter_is_mean_field
    (inputs : string -> option ndarray) (uniform : nat -> nat -> R)
    (draw : sampler -> list ndarray -> ndarray) (tem : R -> R)
    (self : positive) (vmap : gmap positive expr) (a : expr) (A : ndarray) :
  vmap !! self = Some a ->
  eval inputs uniform draw tem a = Ok A ->
  exists (p : expr) (P : ndarray),
    outcome (BinaryUnits_mean_field_from_activation self vmap) = Ok p
    /\ outcome (BinaryUnits_sample_from_activation self vmap) = Ok (samplers.bernoulli p)
    /\ eval inputs uniform draw tem p = Ok P
    /\ shape P = shape A
    /\ all_entries (fun q => (0 <= q <= 1)%R) P
    /\ value_of inputs uniform draw tem (BinaryUnits_sample_from_activation self vmap)
       = Ok (draw Bernoulli [P]).
Proof.
  intros Hv Ha.
  exists (activation_functions.sigmoid a), (tmap sigmoid A).
  unfold value_of, BinaryUnits_mean_field_from_activation,
    BinaryUnits_sample_from_activation.
  rewrite !(bind_vmap_get_some _ _ _ _ Hv). simpl outcome.
  split; [reflexivity |]. split; [reflexivity |].
  split; [by apply eval_sigmoid |]. split; [reflexivity |]. split.
  - unfold all_entries, tmap. simpl. rewrite entries_nmap.
    apply Forall_forall. intros q Hq.
    apply list_elem_of_In, in_map_iff in Hq as (d & <- & _). apply sigmoid_range.
  - rewrite result_bind_ok. simpl. by rewrite Ha.
Qed.

Lemma binary_sample_parameter_is_mean_field_witness :
  let A := matrix [[(-3)%R; 40%R]] in
  exists P : ndarray,
    value_of no_inputs uniform_half draw_zero tem_id
      (BinaryUnits_sample_from_activation 1%positive {[1%positive := EConst A]})
    = Ok (draw_zero Bernoulli [P])
    /\ all_entries (fun q => (0 <= q <= 1)%R) P.
Proof.
  intros A.
  destruct (binary_sample_parameter_is_mean_field
              no_inputs uniform_half draw_zero tem_id 1%positive
              {[1%positive := EConst A]} (EConst A) A)
    as (p & P & _ & _ & _ & _ & Hall & Hval).
  - apply lookup_singleton_eq.
  - reflexivity.
  - exists P. auto.
Defined.

(** X12: [ExponentialUnits] uses the negated activation as the rate: the
    sampler is given [- a], and the mean field is the reciprocal [1 / (- a)] of
    that rate.  For a strictly negative activation both the rate and the mean
    field are strictly positive, entry by entry. *)
Theorem exponential_mean_field_is_reciprocal_rate
    (inputs : string -> option ndarray) (uniform : nat -> nat -> R)
    (draw : sampler -> list ndarray -> ndarray) (tem : R -> R)
    (self : positive) (vmap : gmap positive expr) (a : expr) (A : ndarray) :
  vmap !! self = Some a ->
  eval inputs uniform draw tem a = Ok A ->
  all_entries (fun v => (v < 0)%R) A ->
  exists rate : expr,
    outcome (ExponentialUnits_sample_from_activation self vmap)
      = Ok (samplers.exponential rate)
    /\ outcome (ExponentialUnits_mean_field_from_activation self vmap)
       = Ok (const 1 / rate)%E
    /\ eval inputs uniform draw tem rate = Ok (tmap Ropp A)
    /\ all_entries (fun v => (0 < v)%R) (tmap Ropp A)
    /\ value_of inputs uniform draw tem
         (ExponentialUnits_mean_field_from_activation self vmap)
       = Ok (tmap (fun v => (1 / - v)%R) A)
    /\ all_entries (fun v => (0 < v)%R) (tmap (fun v => (1 / - v)%R) A).
Proof.
  intros Hv Ha Hneg. exists (- a)%E.
  unfold value_of, ExponentialUnits_sample_from_activation,
    ExponentialUnits_mean_field_from_activation.
  rewrite !(bind_vmap_get_some _ _ _ _ Hv). simpl outcome.
  split; [reflexivity |]. split; [reflexivity |].
  split; [simpl; by rewrite Ha |].
  assert (Hval : (let? e := Ok (const 1 / - a)%E in eval inputs uniform draw tem e)
                 = Ok (tmap (fun v => (1 / - v)%R) A)).
  { rewrite result_bind_ok. simpl. rewrite Ha. simpl. rewrite elemwise2_scalar_l.
    f_equal. unfold tmap. simpl. by rewrite nmap_nmap. }
  unfold all_entries, tmap in *. simpl in Hneg |- *. rewrite !entries_nmap.
  rewrite Forall_forall in Hneg.
  split; [| split; [exact Hval |]].
  - apply Forall_forall. intros v Hv'.
    apply list_elem_of_In, in_map_iff in Hv' as (d & <- & Hd).
    apply list_elem_of_In, Hneg in Hd. lra.
  - apply Forall_forall. intros v Hv'.
    apply list_elem_of_In, in_map_iff in Hv' as (d & <- & Hd).
    apply list_elem_of_In, Hneg in Hd. apply Rdiv_lt_0_compat; lra.
Qed.

Lemma exponential_mean_field_is_reciprocal_rate_witness :
  let A := matrix [[(-2)%R; (-4)%R]] in
  value_of no_inputs uniform_half draw_zero tem_id
    (ExponentialUnits_mean_field_from_activation 1%positive {[1%positive := EConst A]})
  = Ok (tmap (fun v => (1 / - v)%R) A)
  /\ all_entries (fun v => (0 < v)%R) (tmap (fun v => (1 / - v)%R) A).
Proof.
  intros A.
  destruct (exponential_mean_field_is_reciprocal_rate
              no_inputs uniform_half draw_zero tem_id 1%positive
              {[1%positive := EConst A]} (EConst A) A)
    as (rate & _ & _ & _ & _ & Hval & Hpos).
  - apply lookup_singleton_eq.
  - reflexivity.
  - repeat constructor; lra.
  - auto.
Defined.

(** ** [SoftmaxUnits] *)

Lemma Forall_rows_imap_pre (Q P : list R -> Prop) (F : nat -> list R -> list R) l1 :
  Forall Q (map row_of l1) -> (forall j r, Q r -> P (F j r)) ->
  Forall P (map row_of (imap (fun j t2 => of_row (F j (row_of t2))) l1)).
Proof.
  revert F. induction l1 as [| t2 l1 IH]; intros F HQ HF; simpl; [constructor |].
  simpl in HQ. apply Forall_cons in HQ as [Hq HQ].
  constructor; [rewrite row_of_of_row; by apply HF |].
  apply (IH (fun j => F (S j))); [exact HQ |]. intros j r. apply HF.
Qed.

Lemma Forall_rows3_imap_rows3_pre (Q P : list R -> Prop) f t :
  Forall Q (rows3 t) -> (forall i j r, Q r -> P (f i j r)) ->
  Forall P (rows3 (imap_rows3 f t)).
Proof.
  destruct t as [x | l0]; simpl; [constructor |].
  revert f. induction l0 as [| t1 l0 IH]; intros f HQ Hf; simpl; [constructor |].
  simpl in HQ. apply Forall_app in HQ as [HQ1 HQ2].
  apply Forall_app. split.
  - destruct t1 as [x | l1]; [constructor |]. apply (Forall_rows_imap_pre Q); [exact HQ1 | apply Hf].
  - apply (IH (fun i => f (S i))); [exact HQ2 |]. intros i j r. apply Hf.
Qed.

Lemma rows3_conform m n k t :
  conforms [m; n; k] t = true -> Forall (fun r => length r = k) (rows3 t).
Proof.
  intros Hc. destruct t as [x | l0]; [discriminate |].
  apply conforms_arr in Hc as [_ H0]. simpl.
  induction H0 as [| t1 l0 H1 _ IH]; simpl; [constructor |].
  apply Forall_app. split; [| exact IH].
  destruct t1 as [x | l1]; [constructor |].
  apply conforms_arr in H1 as [_ H1].
  induction H1 as [| t2 l1 H2 _ IH1]; simpl; [constructor |].
  constructor; [| exact IH1].
  destruct t2 as [x | l2]; [discriminate |].
  apply conforms_arr in H2 as [H2 _]. unfold row_of. by rewrite length_map.
Qed.

Lemma one_hot_exactly n i : i < n -> exactly_one_one (one_hot n i).
Proof.
  intros Hi. exists i. split.
  - rewrite lookup_one_hot by done. by rewrite Nat.eqb_refl.
  - intros j Hne Hj. rewrite length_one_hot in Hj. rewrite lookup_one_hot by done.
    by rewrite (proj2 (Nat.eqb_neq j i)).
Qed.

Lemma length_softmax_row r : length (softmax_row r) = length r.
Proof. unfold softmax_row. by rewrite length_map. Qed.

(** A draw over the states of a non-empty row selects exactly one state. *)
Lemma multinomial_softmax_row u r :
  r <> [] ->
  exactly_one_one (multinomial_row u (softmax_row r))
  /\ length (multinomial_row u (softmax_row r)) = length r.
Proof.
  intros Hr. unfold multinomial_row. rewrite length_one_hot, length_softmax_row.
  split; [| reflexivity]. apply one_hot_exactly.
  rewrite <- (length_softmax_row r). apply pick_lt.
  intros Hnil. apply Hr. apply (f_equal length) in Hnil.
  rewrite length_softmax_row in Hnil. by destruct r.
Qed.

(** X13: [SoftmaxUnits.sample_from_activation] returns the multinomial draw
    over the softmax of the activation.  For a rank-3 activation the value has
    the shape of the activation, and every (minibatch, unit) row that has
    states holds exactly one 1 and zeros elsewhere; for a well-formed
    activation with at least one state that is every row. *)
Theorem softmax_sample_rows_are_one_hot
    (inputs : string -> option ndarray) (uniform : nat -> nat -> R)
    (draw : sampler -> list ndarray -> ndarray) (tem : R -> R)
    (self : positive) (vmap : gmap positive expr) (a : expr) (A : ndarray)
    (m n k : nat) :
  vmap !! self = Some a ->
  eval inputs uniform draw tem a = Ok A -> shape A = [m; n; k] ->
  outcome (SoftmaxUnits_sample_from_activation self vmap)
    = Ok (samplers.multinomial (activation_functions.softmax a))
  /\ exists S0 : ndarray,
       value_of inputs uniform draw tem (SoftmaxUnits_sample_from_activation self vmap)
       = Ok S0
       /\ shape S0 = [m; n; k]
       /\ Forall (fun r => exactly_one_one r \/ r = []) (rows3 (body S0))
       /\ (well_formed A -> 0 < k ->
           Forall (fun r => exactly_one_one r /\ length r = k) (rows3 (body S0))).
Proof.
  intros Hv Ha Hsh.
  assert (Hc : outcome (SoftmaxUnits_sample_from_activation self vmap)
               = Ok (samplers.multinomial (activation_functions.softmax a))).
  { unfold SoftmaxUnits_sample_from_activation.
    by rewrite (bind_vmap_get_some _ _ _ _ Hv). }
  split; [exact Hc |].
  unfold value_of. rewrite Hc, result_bind_ok. simpl. rewrite Ha. simpl.
  rewrite (on_rows3_shape _ _ _ m n k Hsh), result_bind_ok.
  rewrite (on_rows3_shape _ _ (NDArray [m; n; k] _) m n k eq_refl).
  eexists. split; [reflexivity |]. simpl. split; [reflexivity |].
  rewrite imap_rows3_compose. split.
  - apply Forall_rows3_imap_rows3. intros i j r.
    destruct r as [| x r]; [by right |]. left.
    by apply multinomial_softmax_row.
  - intros Hwf Hk. unfold well_formed in Hwf. rewrite Hsh in Hwf.
    apply (Forall_rows3_imap_rows3_pre (fun r => length r = k));
      [by apply (rows3_conform m n k) |].
    intros i j r Hr.
    destruct (multinomial_softmax_row (uniform i j) r) as [H1 H2].
    { intros ->. simpl in Hr. lia. }
    split; [exact H1 | by rewrite H2].
Qed.

Lemma softmax_sample_rows_are_one_hot_witness :
  let A := NDArray [1; 1; 2] (Arr [Arr [Arr [Leaf 0%R; Leaf 1%R]]]) in
  exists S0 : ndarray,
    value_of no_inputs uniform_half draw_zero tem_id
      (SoftmaxUnits_sample_from_activation 1%positive {[1%positive := EConst A]})
    = Ok S0
    /\ Forall (fun r => exactly_one_one r /\ length r = 2) (rows3 (body S0)).
Proof.
  intros A.
  destruct (softmax_sample_rows_are_one_hot
              no_inputs uniform_half draw_zero tem_id 1%positive
              {[1%positive := EConst A]} (EConst A) A 1 1 2)
    as (_ & S0 & Hval & _ & _ & Hrows).
  - apply lookup_singleton_eq.
  - reflexivity.
  - reflexivity.
  - exists S0. split; [exact Hval |]. apply Hrows; [reflexivity | lia].
Defined.

(** ** What a method depends on *)

Lemma bind_vmap_get_agree {B} (v1 v2 : gmap positive expr) k (K1 K2 : expr -> M B) :
  v1 !! k = v2 !! k -> (forall e, K1 e = K2 e) ->
  bind (vmap_get v1 k) K1 = bind (vmap_get v2 k) K2.
Proof.
  intros Hk HK. unfold bind, vmap_get. simpl. rewrite Hk.
  destruct (v2 !! k); [by rewrite HK | reflexivity].
Qed.

Lemma bind_getattr_agree {B} h self attr (K1 K2 : pyval -> M B) :
  (forall p, attr_is_unit h self attr p -> K1 (VRef p) = K2 (VRef p)) ->
  (forall v, (forall p, v <> VRef p) -> K1 v = K2 v) ->
  bind (getattr h self attr) K1 = bind (getattr h self attr) K2.
Proof.
  intros Hp Hv. unfold getattr.
  destruct (h !! self) as [ob |] eqn:Eo; [| reflexivity].
  destruct (attrs ob !! attr) as [v |] eqn:Ea; [| reflexivity].
  rewrite !bind_ret. destruct v as [| s | p | l | f | m];
    try (apply Hv; intros p; discriminate).
  apply Hp. by exists ob.
Qed.

(** X14: a method of a unit depends on [vmap] only through the entry of the
    unit and the entries of the proxies bound to its attributes
    [precision_units], [log_units] and [flipped_units]: on two vmaps that agree
    on these keys every method of every class returns the same outcome and
    reads the same keys. *)
Theorem methods_depend_only_on_own_and_proxy_entries
    (T_max : expr -> expr -> result expr) (h : gmap positive object)
    (self : positive) (m : method) (v1 v2 : gmap positive expr) :
  v1 !! self = v2 !! self ->
  (forall attr p,
     attr ∈ ["precision_units"; "log_units"; "flipped_units"]%string ->
     attr_is_unit h self attr p -> v1 !! p = v2 !! p) ->
  call_method T_max h self m v1 = call_method T_max h self m v2.
Proof.
  intros Hs Hp. unfold call_method.
  destruct (h !! self) as [ob |] eqn:Eo; [| reflexivity].
  assert (Hprox : forall attr,
            attr ∈ ["precision_units"; "log_units"; "flipped_units"]%string ->
            forall (K : expr -> M expr),
            bind (getattr h self attr)
              (fun v => bind (as_unit v) (fun k => bind (vmap_get v1 k) K))
            = bind (getattr h self attr)
                (fun v => bind (as_unit v) (fun k => bind (vmap_get v2 k) K))).
  { intros attr Hattr K. apply bind_getattr_agree.
    - intros p Hat. simpl as_unit. rewrite !bind_ret.
      apply bind_vmap_get_agree; [by apply (Hp attr) | reflexivity].
    - intros v Hv. destruct v; try reflexivity. by destruct (Hv o). }
  destruct (cls ob), m; try reflexivity; unfold_methods;
    try (apply bind_vmap_get_agree; [exact Hs | intros e; try reflexivity]).
  - apply (Hprox "precision_units"%string). repeat constructor.
  - apply (Hprox "log_units"%string). repeat constructor.
  - apply (Hprox "flipped_units"%string). repeat constructor.
  - apply (Hprox "flipped_units"%string). repeat constructor.
  - apply (Hprox "flipped_units"%string). repeat constructor.
Qed.

Lemma methods_depend_only_on_own_and_proxy_entries_witness :
  let h := (SymmetricBinaryUnits_new 1%positive None ∅).2 in
  let v1 : gmap positive expr := <[2%positive := const 1]> {[1%positive := const 0]} in
  let v2 : gmap positive expr := <[9%positive := const 7]> v1 in
  call_method T_max_unsupported h 1%positive FreeEnergyTermFromActivation v1
  = call_method T_max_unsupported h 1%positive FreeEnergyTermFromActivation v2.
Proof.
  intros h v1 v2.
  apply (methods_depend_only_on_own_and_proxy_entries
           T_max_unsupported h 1%positive FreeEnergyTermFromActivation v1 v2).
  - reflexivity.
  - intros attr p Hattr (ob & Hob & Hat).
    vm_compute in Hob. injection Hob as <-.
    apply list_elem_of_In in Hattr. simpl in Hattr.
    destruct Hattr as [<- | [<- | [<- | []]]]; vm_compute in Hat;
      [discriminate | discriminate | injection Hat as <-; reflexivity].
Defined.

(** X15: the units with a proxy look up their own entry first: when [vmap]
    lacks it the error names the unit, whatever the proxy attribute or the
    proxy's entry are; when it is present and the entry of the proxy is
    missing, the error names the proxy. *)
Theorem units_with_proxy_look_up_own_entry_first
    (h : gmap positive object) (self : positive) (vmap : gmap positive expr) :
  (vmap !! self = None ->
   outcome (LearntPrecisionGaussianUnits_sample_from_activation h self vmap)
     = Raise (KeyError self)
   /\ outcome (GammaUnits_sample_from_activation h self vmap) = Raise (KeyError self)
   /\ outcome (SymmetricBinaryUnits_sample_from_activation h self vmap)
      = Raise (KeyError self)
   /\ outcome (SymmetricBinaryUnits_mean_field_from_activation h self vmap)
      = Raise (KeyError self)
   /\ outcome (SymmetricBinaryUnits_free_energy_term_from_activation h self vmap)
      = Raise (KeyError self))
  /\ (forall x p,
        vmap !! self = Some x -> vmap !! p = None ->
        (attr_is_unit h self "precision_units" p ->
         outcome (LearntPrecisionGaussianUnits_sample_from_activation h self vmap)
         = Raise (KeyError p))
        /\ (attr_is_unit h self "log_units" p ->
            outcome (GammaUnits_sample_from_activation h self vmap) = Raise (KeyError p))
        /\ (attr_is_unit h self "flipped_units" p ->
            outcome (SymmetricBinaryUnits_sample_from_activation h self vmap)
              = Raise (KeyError p)
            /\ outcome (SymmetricBinaryUnits_mean_field_from_activation h self vmap)
               = Raise (KeyError p)
            /\ outcome (SymmetricBinaryUnits_free_energy_term_from_activation h self vmap)
               = Raise (KeyError p))).
Proof.
  split.
  - intros Hn. unfold_methods. rewrite !(bind_vmap_get_none _ _ _ Hn). repeat split.
  - intros x p Hx Hp. unfold_methods.
    rewrite !(bind_vmap_get_some _ _ _ _ Hx). simpl outcome.
    split; [| split]; intros Hat;
      rewrite !(bind_getattr_unit _ _ _ _ _ Hat); simpl as_unit;
      rewrite !bind_ret, !(bind_vmap_get_none _ _ _ Hp); repeat split.
Qed.


Lemma units_with_proxy_look_up_own_entry_first_witness :
  let h := (GammaUnits_new 1%positive None ∅).2 in
  outcome (GammaUnits_sample_from_activation h 1%positive ∅) = Raise (KeyError 1%positive)
  /\ outcome (GammaUnits_sample_from_activation h 1%positive {[1%positive := const (-1)]})
     = Raise (KeyError 2%positive).
Proof.
  intros h. split.
  - apply (units_with_proxy_look_up_own_entry_first h 1%positive ∅). reflexivity.
  - apply (proj2 (units_with_proxy_look_up_own_entry_first h 1%positive
                    {[1%positive := const (-1)]}) (const (-1)) 2%positive);
      [reflexivity | reflexivity |].
    eexists. split; vm_compute; reflexivity.
Defined.

Lemma sample_shortcuts_propagate_activation_failure_witness :
  outcome (GammaUnits_sample activation_failing ∅ 1%positive ∅) = Raise ValueError
  /\ outcome (LearntPrecisionGaussianUnits_sample activation_failing ∅ 1%positive ∅)
     = Raise ValueError.
Proof.
  apply (proj1 (sample_shortcuts_propagate_activation_failure
                  activation_failing ∅ 1%positive ∅ ValueError)).
  reflexivity.
Defined.

(** ** [GaussianUnits] and [TruncatedExponentialUnits] *)

(** X16: [GaussianUnits]: the mean field is the activation itself, and the
    sample is drawn from the Gaussian sampler around that mean field with the
    variance 1; a vmap without the entry of the unit makes both calls raise
    [KeyError] for the unit. *)
Theorem gaussian_sample_is_centred_on_mean_field
    (inputs : string -> option ndarray) (uniform : nat -> nat -> R)
    (draw : sampler -> list ndarray -> ndarray) (tem : R -> R)
    (self : positive) (vmap : gmap positive expr) :
  (forall a A,
     vmap !! self = Some a -> eval inputs uniform draw tem a = Ok A ->
     outcome (GaussianUnits_mean_field_from_activation self vmap) = Ok a
     /\ value_of inputs uniform draw tem (GaussianUnits_mean_field_from_activation self vmap)
        = Ok A
     /\ outcome (GaussianUnits_sample_from_activation self vmap)
        = Ok (samplers.gaussian a (const 1))
     /\ value_of inputs uniform draw tem (GaussianUnits_sample_from_activation self vmap)
        = Ok (draw Gaussian [A; scalar 1]))
  /\ (vmap !! self = None ->
      outcome (GaussianUnits_mean_field_from_activation self vmap) = Raise (KeyError self)
      /\ outcome (GaussianUnits_sample_from_activation self vmap) = Raise (KeyError self)).
Proof.
  unfold value_of, GaussianUnits_mean_field_from_activation,
    GaussianUnits_sample_from_activation. split.
  - intros a A Hv Ha. rewrite !(bind_vmap_get_some _ _ _ _ Hv). simpl outcome.
    rewrite !result_bind_ok. split; [reflexivity |]. split; [exact Ha |].
    split; [reflexivity |]. unfold samplers.gaussian, samplers.gaussian_default_var.
    rewrite eval_sample2, Ha. reflexivity.
  - intros Hn. by rewrite !(bind_vmap_get_none _ _ _ Hn).
Qed.

Lemma gaussian_sample_is_centred_on_mean_field_witness :
  let A := matrix [[3%R]] in
  value_of no_inputs uniform_half draw_zero tem_id
    (GaussianUnits_mean_field_from_activation 1%positive {[1%positive := EConst A]})
  = Ok A
  /\ outcome (GaussianUnits_sample_from_activation 1%positive ∅)
     = Raise (KeyError 1%positive).
Proof.
  intros A. split.
  - apply (proj1 (gaussian_sample_is_centred_on_mean_field
                    no_inputs uniform_half draw_zero tem_id 1%positive
                    {[1%positive := EConst A]}) (EConst A) A);
      [apply lookup_singleton_eq | reflexivity].
  - apply (proj2 (gaussian_sample_is_centred_on_mean_field
                    no_inputs uniform_half draw_zero tem_id 1%positive ∅)).
    reflexivity.
Defined.

(** X17: [TruncatedExponentialUnits] uses the negated activation as the
    rate, for the sampler and for the mean alike; for a strictly negative
    activation that rate is strictly positive, entry by entry, and the mean
    field is the truncated mean of the rate, entry by entry. *)
Theorem truncated_exponential_rate_is_negated_activation
    (inputs : string -> option ndarray) (uniform : nat -> nat -> R)
    (draw : sampler -> list ndarray -> ndarray) (tem : R -> R)
    (self : positive) (vmap : gmap positive expr) (a : expr) (A : ndarray) :
  vmap !! self = Some a ->
  eval inputs uniform draw tem a = Ok A ->
  all_entries (fun v => (v < 0)%R) A ->
  exists rate : expr,
    outcome (TruncatedExponentialUnits_sample_from_activation self vmap)
      = Ok (samplers.truncated_exponential rate)
    /\ outcome (TruncatedExponentialUnits_mean_field_from_activation self vmap)
       = Ok (samplers.truncated_exponential_mean rate)
    /\ eval inputs uniform draw tem rate = Ok (tmap Ropp A)
    /\ all_entries (fun v => (0 < v)%R) (tmap Ropp A)
    /\ value_of inputs uniform draw tem
         (TruncatedExponentialUnits_sample_from_activation self vmap)
       = Ok (draw TruncatedExponential [tmap Ropp A])
    /\ value_of inputs uniform draw tem
         (TruncatedExponentialUnits_mean_field_from_activation self vmap)
       = Ok (tmap (fun v => tem (- v)%R) A).
Proof.
  intros Hv Ha Hneg. exists (- a)%E.
  unfold value_of, TruncatedExponentialUnits_sample_from_activation,
    TruncatedExponentialUnits_mean_field_from_activation.
  rewrite !(bind_vmap_get_some _ _ _ _ Hv). simpl outcome. rewrite !result_bind_ok.
  split; [reflexivity |]. split; [reflexivity |].
  split; [simpl; by rewrite Ha |]. split.
  - unfold all_entries, tmap in *. simpl. rewrite entries_nmap.
    rewrite Forall_forall in Hneg. apply Forall_forall. intros v Hv'.
    apply list_elem_of_In, in_map_iff in Hv' as (d & <- & Hd).
    apply list_elem_of_In, Hneg in Hd. lra.
  - split.
    + simpl. by rewrite Ha.
    + simpl. rewrite Ha. simpl. f_equal. unfold tmap. simpl. by rewrite nmap_nmap.
Qed.

Lemma truncated_exponential_rate_is_negated_activation_witness :
  let A := matrix [[(-2)%R]] in
  value_of no_inputs uniform_half draw_zero tem_id
    (TruncatedExponentialUnits_mean_field_from_activation 1%positive
       {[1%positive := EConst A]})
  = Ok (tmap (fun v => tem_id (- v)%R) A).
Proof.
  intros A.
  destruct (truncated_exponential_rate_is_negated_activation
              no_inputs uniform_half draw_zero tem_id 1%positive
              {[1%positive := EConst A]} (EConst A) A)
    as (rate & _ & _ & _ & _ & _ & Hval).
  - apply lookup_singleton_eq.
  - reflexivity.
  - repeat constructor; lra.
  - exact Hval.
Defined.
